(** * whisper-dictation: the recording / transcription controller

    A shallow embedding of [src/main.py] (class [WhisperDictationApp]).

    The program is a handful of Python threads over one shared object:
    the keyboard listener and the menu / signal callbacks (which call
    [start_recording] and [stop_recording]), one capture thread per
    recording ([record_audio]), one worker per transcription
    ([process_recording]) and the model loader ([load_model]).

    The embedding is an interleaving semantics.  The attributes of [self] and
    the parts of the outside world the code touches (temporary files, the
    engine, the clipboard) are the fields of one record [App]; every thread
    has a program counter; [step] runs one atomic piece of one thread.
    What a collaborator answers (does the device open, which bytes were read,
    which name the temporary file got, what the engine returned) comes with
    the event.

    The callbacks come on two threads, the key callbacks on pynput's
    listener thread and the menu and signal callbacks on the main thread,
    and the code has no lock.  Two semantics are given over the same
    methods and threads:
    - [step], [run], [reachable]: the callbacks one at a time.  A callback
      is atomic up to the [recording_thread.join()] of [stop_recording],
      where it blocks: the rest of the callback is kept as a continuation
      ([cont]) and resumed by the event [EvJoined], enabled once the joined
      thread has ended; no other callback is entered meanwhile.  These are
      the runs in which no key, menu item or signal arrives while a
      [stop_recording] waits;
    - [cstep], [crun], [creachable]: each of the two callback threads enters
      its callbacks whatever the other one does, and a join waits for the
      thread object it was called on.  What a [stop_recording] guarantees
      about the capture threads (C8) is settled there.

    Other modelling decisions, all visible in the definitions below:
    - a worker's piece from the engine's answer to the status line, the
      calls of [insert_text] included, is one step;
    - [audio.open], [stream.read] and [model.transcribe] may raise; the other
      collaborator calls (temporary file, wave writer, pbcopy, key
      simulation, unlink) are taken to succeed;
    - Python's [str] is Rocq's [string], a PCM buffer is a [list byte]. *)

From stdpp Require Import base tactics option list strings gmap.
From Stdlib Require Import ZArith.

Local Open Scope string_scope.
Local Open Scope list_scope.

(** ** Keys, as pynput delivers them

    A [KeyCode] object has a [vk] attribute (possibly [None]); a member of
    the [Key] enumeration has none and is compared by identity. *)

Inductive Key :=
  | Key_alt | Key_cmd | Key_ctrl | Key_enter | Key_esc | Key_shift
  | Key_space | Key_tab | Key_f12 | Key_f13 | Key_f17 | Key_f18.

#[global] Instance Key_eq_dec : EqDecision Key.
Proof. solve_decision. Defined.

Inductive key :=
  | KeyCode (vk : option Z)
  | KeyOf (k : Key).

(** [hasattr(key, 'vk')] and [key.vk] in one: [None] when there is no such
    attribute. *)
Definition vk_attr (k : key) : option (option Z) :=
  match k with
  | KeyCode vk => Some vk
  | KeyOf _ => None
  end.

(** [key.vk == n]; a [vk] of [None] is equal to no number. *)
Definition vk_is (vk : option Z) (n : Z) : bool :=
  match vk with
  | Some v => Z.eqb v n
  | None => false
  end.

Definition special_keys : list Key :=
  [Key_f12; Key_f13; Key_f17; Key_f18; Key_cmd; Key_space].

(** [key in [Key.f12, Key.f13, Key.f17, Key.f18, Key.cmd, Key.space]] *)
Definition in_special_keys (k : key) : bool :=
  match k with
  | KeyOf s => bool_decide (s ∈ special_keys)
  | KeyCode _ => false
  end.

(** ** Threads *)

Definition frame := list Byte.byte.

(** [record_audio]: where the capture thread stands. *)
Inductive cap_pc :=
  | CapOpen                 (* about to call audio.open *)
  | CapTest                 (* at [while self.recording] *)
  | CapRead                 (* inside stream.read *)
  | CapAppend (d : frame)   (* read returned, about to append *)
  | CapClose                (* loop left, about to stop and close the stream *)
  | CapDone                 (* returned *)
  | CapDead.                (* ended by an exception *)

Definition cap_ended (pc : cap_pc) : bool :=
  match pc with
  | CapDone | CapDead => true
  | _ => false
  end.

(** The contents of a temporary file: just created, or a closed wave file. *)
Inductive file :=
  | EmptyFile
  | WavFile (nchannels sampwidth framerate : Z) (data : list Byte.byte).

(** [process_recording] / [transcribe_audio]: where a worker stands. *)
Inductive tr_pc :=
  | TrCheck                               (* at [if not self.frames] *)
  | TrTemp                                (* about to create the temporary file *)
  | TrWrite (name : string)               (* about to write the wave file *)
  | TrEngine (name : string)              (* inside the [try]: about to call the engine *)
  | TrFinally (name : string) (raised : bool)  (* at the [finally] of transcribe_audio *)
  | TrDone.

(** [load_model] *)
Inductive load_pc := LoadStart | Loading | LoadDone.

(** What is left of a callback once the [stop_recording] it called returns. *)
Inductive cont :=
  | KReturn                     (* nothing: menu item, or the last statement *)
  | KReleaseSpecial (k : key)   (* the special-key test that ends on_release *)
  | KShutdown.                  (* the rest of handle_shutdown *)

Inductive ctrl :=
  | Running
  | Joining (k : cont).   (* blocked in recording_thread.join() *)

Inductive WhisperModel := BaseModel.

Inductive keystroke :=
  | PressCmd | PressV | ReleaseV | ReleaseCmd.

(** ** The shared state *)

Record App := mkApp {
  (* attributes of self *)
  recording : bool;
  frames : list frame;
  model : option WhisperModel;
  is_recording_with_key63 : bool;
  title : string;
  status_item : string;              (* status_item.title *)
  recording_thread : option nat;     (* None: no such attribute yet *)
  audio_terminated : bool;           (* self.audio.terminate() was called *)
  (* threads *)
  load_model_thread : load_pc;
  capture_threads : list cap_pc;
  transcribe_threads : list tr_pc;
  handler : ctrl;
  (* the outside world *)
  clipboard : string;
  keystrokes : list keystroke;
  tmp_files : gmap string file;
  engine_calls : list (string * option file);
  quit : bool                        (* rumps.quit_application() was called *)
}.

Definition trigger_key : Z := 63.
Definition channels : Z := 1.
Definition rate : Z := 16000.
Definition chunk : Z := 1024.
(** [self.audio.get_sample_size(pyaudio.paInt16)] *)
Definition sample_size : Z := 2.

Definition set_recording (b : bool) (a : App) : App :=
  mkApp b (frames a) (model a) (is_recording_with_key63 a) (title a)
    (status_item a) (recording_thread a) (audio_terminated a)
    (load_model_thread a) (capture_threads a) (transcribe_threads a)
    (handler a) (clipboard a) (keystrokes a) (tmp_files a) (engine_calls a)
    (quit a).

Definition set_frames (fs : list frame) (a : App) : App :=
  mkApp (recording a) fs (model a) (is_recording_with_key63 a) (title a)
    (status_item a) (recording_thread a) (audio_terminated a)
    (load_model_thread a) (capture_threads a) (transcribe_threads a)
    (handler a) (clipboard a) (keystrokes a) (tmp_files a) (engine_calls a)
    (quit a).

Definition set_model (m : option WhisperModel) (a : App) : App :=
  mkApp (recording a) (frames a) m (is_recording_with_key63 a) (title a)
    (status_item a) (recording_thread a) (audio_terminated a)
    (load_model_thread a) (capture_threads a) (transcribe_threads a)
    (handler a) (clipboard a) (keystrokes a) (tmp_files a) (engine_calls a)
    (quit a).

Definition set_is_recording_with_key63 (b : bool) (a : App) : App :=
  mkApp (recording a) (frames a) (model a) b (title a)
    (status_item a) (recording_thread a) (audio_terminated a)
    (load_model_thread a) (capture_threads a) (transcribe_threads a)
    (handler a) (clipboard a) (keystrokes a) (tmp_files a) (engine_calls a)
    (quit a).

Definition set_title (s : string) (a : App) : App :=
  mkApp (recording a) (frames a) (model a) (is_recording_with_key63 a) s
    (status_item a) (recording_thread a) (audio_terminated a)
    (load_model_thread a) (capture_threads a) (transcribe_threads a)
    (handler a) (clipboard a) (keystrokes a) (tmp_files a) (engine_calls a)
    (quit a).

Definition set_status_item (s : string) (a : App) : App :=
  mkApp (recording a) (frames a) (model a) (is_recording_with_key63 a) (title a)
    s (recording_thread a) (audio_terminated a)
    (load_model_thread a) (capture_threads a) (transcribe_threads a)
    (handler a) (clipboard a) (keystrokes a) (tmp_files a) (engine_calls a)
    (quit a).

Definition set_recording_thread (t : option nat) (a : App) : App :=
  mkApp (recording a) (frames a) (model a) (is_recording_with_key63 a) (title a)
    (status_item a) t (audio_terminated a)
    (load_model_thread a) (capture_threads a) (transcribe_threads a)
    (handler a) (clipboard a) (keystrokes a) (tmp_files a) (engine_calls a)
    (quit a).

Definition set_audio_terminated (b : bool) (a : App) : App :=
  mkApp (recording a) (frames a) (model a) (is_recording_with_key63 a) (title a)
    (status_item a) (recording_thread a) b
    (load_model_thread a) (capture_threads a) (transcribe_threads a)
    (handler a) (clipboard a) (keystrokes a) (tmp_files a) (engine_calls a)
    (quit a).

Definition set_load_model_thread (pc : load_pc) (a : App) : App :=
  mkApp (recording a) (frames a) (model a) (is_recording_with_key63 a) (title a)
    (status_item a) (recording_thread a) (audio_terminated a)
    pc (capture_threads a) (transcribe_threads a)
    (handler a) (clipboard a) (keystrokes a) (tmp_files a) (engine_calls a)
    (quit a).

Definition set_capture_threads (ts : list cap_pc) (a : App) : App :=
  mkApp (recording a) (frames a) (model a) (is_recording_with_key63 a) (title a)
    (status_item a) (recording_thread a) (audio_terminated a)
    (load_model_thread a) ts (transcribe_threads a)
    (handler a) (clipboard a) (keystrokes a) (tmp_files a) (engine_calls a)
    (quit a).

Definition set_transcribe_threads (ws : list tr_pc) (a : App) : App :=
  mkApp (recording a) (frames a) (model a) (is_recording_with_key63 a) (title a)
    (status_item a) (recording_thread a) (audio_terminated a)
    (load_model_thread a) (capture_threads a) ws
    (handler a) (clipboard a) (keystrokes a) (tmp_files a) (engine_calls a)
    (quit a).

Definition set_handler (c : ctrl) (a : App) : App :=
  mkApp (recording a) (frames a) (model a) (is_recording_with_key63 a) (title a)
    (status_item a) (recording_thread a) (audio_terminated a)
    (load_model_thread a) (capture_threads a) (transcribe_threads a)
    c (clipboard a) (keystrokes a) (tmp_files a) (engine_calls a)
    (quit a).

Definition set_clipboard (s : string) (a : App) : App :=
  mkApp (recording a) (frames a) (model a) (is_recording_with_key63 a) (title a)
    (status_item a) (recording_thread a) (audio_terminated a)
    (load_model_thread a) (capture_threads a) (transcribe_threads a)
    (handler a) s (keystrokes a) (tmp_files a) (engine_calls a)
    (quit a).

Definition set_keystrokes (ks : list keystroke) (a : App) : App :=
  mkApp (recording a) (frames a) (model a) (is_recording_with_key63 a) (title a)
    (status_item a) (recording_thread a) (audio_terminated a)
    (load_model_thread a) (capture_threads a) (transcribe_threads a)
    (handler a) (clipboard a) ks (tmp_files a) (engine_calls a)
    (quit a).

Definition set_tmp_files (fs : gmap string file) (a : App) : App :=
  mkApp (recording a) (frames a) (model a) (is_recording_with_key63 a) (title a)
    (status_item a) (recording_thread a) (audio_terminated a)
    (load_model_thread a) (capture_threads a) (transcribe_threads a)
    (handler a) (clipboard a) (keystrokes a) fs (engine_calls a)
    (quit a).

Definition set_engine_calls (cs : list (string * option file)) (a : App) : App :=
  mkApp (recording a) (frames a) (model a) (is_recording_with_key63 a) (title a)
    (status_item a) (recording_thread a) (audio_terminated a)
    (load_model_thread a) (capture_threads a) (transcribe_threads a)
    (handler a) (clipboard a) (keystrokes a) (tmp_files a) cs
    (quit a).

Definition set_quit (b : bool) (a : App) : App :=
  mkApp (recording a) (frames a) (model a) (is_recording_with_key63 a) (title a)
    (status_item a) (recording_thread a) (audio_terminated a)
    (load_model_thread a) (capture_threads a) (transcribe_threads a)
    (handler a) (clipboard a) (keystrokes a) (tmp_files a) (engine_calls a)
    b.

(** The object as [__init__] leaves it ([is_recording_with_key63] is set by
    [monitor_keys] before the listener can deliver an event). *)
Definition init_app : App :=
  {| recording := false;
     frames := [];
     model := None;
     is_recording_with_key63 := false;
     title := "🎙️";
     status_item := "Status: Ready";
     recording_thread := None;
     audio_terminated := false;
     load_model_thread := LoadStart;
     capture_threads := [];
     transcribe_threads := [];
     handler := Running;
     clipboard := "";
     keystrokes := [];
     tmp_files := ∅;
     engine_calls := [];
     quit := false |}.

(** ** The methods *)

(** [start_recording] (lines 163-179).  The new thread gets the next free
    index and the attribute [recording_thread] points at it. *)
Definition start_recording (a : App) : App :=
  match model a with
  | None => set_status_item "Status: Waiting for model to load" a
  | Some _ =>
      let a := set_frames [] a in
      let a := set_recording true a in
      let a := set_title "🎙️ (Recording)" a in
      let a := set_status_item "Status: Recording..." a in
      let a := set_recording_thread (Some (length (capture_threads a))) a in
      set_capture_threads (capture_threads a ++ [CapOpen]) a
  end.

(** [stop_recording] up to its [join] (lines 182-184): the flag is cleared
    and the caller blocks. *)
Definition stop_recording (k : cont) (a : App) : App :=
  set_handler (Joining k) (set_recording false a).

(** May [recording_thread.join()] return?  Without the attribute the join is
    skipped. *)
Definition join_returns (a : App) : bool :=
  match recording_thread a with
  | None => true
  | Some t =>
      match capture_threads a !! t with
      | Some pc => cap_ended pc
      | None => true
      end
  end.

(** [stop_recording] after its [join] (lines 186-193): the status, and the
    transcription worker is started. *)
Definition stop_recording_joined (a : App) : App :=
  let a := set_title "🎙️ (Transcribing)" a in
  let a := set_status_item "Status: Transcribing..." a in
  set_transcribe_threads (transcribe_threads a ++ [TrCheck]) a.

(** [insert_text] (lines 264-275): pbcopy, then Command+V. *)
Definition insert_text (text : string) (a : App) : App :=
  let a := set_clipboard text a in
  set_keystrokes (keystrokes a ++ [PressCmd; PressV; ReleaseV; ReleaseCmd]) a.

(** [on_press] (lines 82-104) *)
Definition on_press (k : key) (a : App) : App :=
  let a :=
    match vk_attr k with
    | Some vk =>
        if negb (vk_is vk trigger_key) && negb (recording a) then
          if vk_is vk 49 || vk_is vk 55 then start_recording a else a
        else a
    | None => a
    end in
  if in_special_keys k && negb (recording a) then start_recording a else a.

(** The special-key test that ends [on_release] (lines 131-136). *)
Definition on_release_special (k : key) (a : App) : App :=
  if in_special_keys k && recording a then stop_recording KReturn a else a.

(** [on_release] (lines 106-136) *)
Definition on_release (k : key) (a : App) : App :=
  match vk_attr k with
  | Some vk =>
      if vk_is vk trigger_key then
        if negb (recording a) && negb (is_recording_with_key63 a) then
          on_release_special k
            (start_recording (set_is_recording_with_key63 true a))
        else if recording a && is_recording_with_key63 a then
          stop_recording (KReleaseSpecial k)
            (set_is_recording_with_key63 false a)
        else on_release_special k a
      else if recording a then
        if vk_is vk 49 || vk_is vk 55 then
          stop_recording (KReleaseSpecial k) a
        else on_release_special k a
      else on_release_special k a
  | None => on_release_special k a
  end.

(** [start_recording_menu], [stop_recording_menu] (lines 153-161) *)
Definition start_recording_menu (a : App) : App :=
  if negb (recording a) then start_recording a else a.

Definition stop_recording_menu (a : App) : App :=
  if recording a then stop_recording KReturn a else a.

(** The end of [handle_shutdown] (lines 295-300). *)
Definition shutdown_rest (a : App) : App :=
  set_quit true (set_audio_terminated true a).

(** [handle_shutdown] (lines 287-300) *)
Definition handle_shutdown (a : App) : App :=
  if recording a then stop_recording KShutdown a else shutdown_rest a.

(** What a callback does once its [stop_recording] has returned. *)
Definition resume (k : cont) (a : App) : App :=
  match k with
  | KReturn => a
  | KReleaseSpecial key => on_release_special key a
  | KShutdown => shutdown_rest a
  end.

(** ** The threads, one atomic piece at a time *)

(** What the outside world hands to a capture thread. *)
Inductive cap_in :=
  | CapTick                    (* nothing *)
  | CapOpened (ok : bool)      (* audio.open returned, or raised *)
  | CapGot (d : option frame). (* stream.read returned [d], or raised *)

(** [record_audio] (lines 205-219) *)
Definition record_audio (i : cap_in) (pc : cap_pc) (a : App)
  : option (cap_pc * App) :=
  match pc, i with
  | CapOpen, CapOpened true => Some (CapTest, a)
  | CapOpen, CapOpened false => Some (CapDead, a)
  | CapTest, CapTick => Some (if recording a then CapRead else CapClose, a)
  | CapRead, CapGot (Some d) => Some (CapAppend d, a)
  | CapRead, CapGot None => Some (CapDead, a)
  | CapAppend d, CapTick => Some (CapTest, set_frames (frames a ++ [d]) a)
  | CapClose, CapTick => Some (CapDone, a)
  | _, _ => None
  end.

(** What the outside world hands to a transcription worker. *)
Inductive tr_in :=
  | TrTick
  | TrNamed (name : string)               (* the name NamedTemporaryFile chose *)
  | TrAnswer (r : option (list string)).  (* the segments' texts, or the engine raised *)

(** [text = ""; for segment in segments: text += segment.text] *)
Definition transcript (segments : list string) : string :=
  fold_left (fun text s => text +:+ s) segments "".

Definition is_empty (s : string) : bool :=
  match s with
  | EmptyString => true
  | String _ _ => false
  end.

(** [process_recording] around [transcribe_audio] (lines 195-203, 221-262).
    An exception inside the [try] of [transcribe_audio] sets the status
    there, passes the [finally] and reaches the [except] of
    [process_recording].  From the engine's answer to the status line the
    worker is followed in one piece: what another thread does between the
    calls of [insert_text] is not looked at. *)
Definition process_recording (i : tr_in) (pc : tr_pc) (a : App)
  : option (tr_pc * App) :=
  match pc, i with
  | TrCheck, TrTick =>
      match frames a with
      | [] =>
          let a := set_title "🎙️" a in
          let a := set_status_item "Status: No audio recorded" a in
          Some (TrDone, set_title "🎙️" a)
      | _ :: _ => Some (TrTemp, a)
      end
  | TrTemp, TrNamed n =>
      match tmp_files a !! n with
      | None => Some (TrWrite n, set_tmp_files (<[n := EmptyFile]> (tmp_files a)) a)
      | Some _ => None   (* a name in use is never handed out *)
      end
  | TrWrite n, TrTick =>
      let w := WavFile channels sample_size rate (concat (frames a)) in
      Some (TrEngine n, set_tmp_files (<[n := w]> (tmp_files a)) a)
  | TrEngine n, TrAnswer r =>
      match model a with
      | None =>
          Some (TrFinally n true, set_status_item "Status: Transcription error" a)
      | Some _ =>
          let a := set_engine_calls (engine_calls a ++ [(n, tmp_files a !! n)]) a in
          match r with
          | Some segments =>
              let text := transcript segments in
              if negb (is_empty text) then
                let a := insert_text text a in
                Some (TrFinally n false,
                      set_status_item
                        ("Status: Transcribed: " +:+ String.substring 0 30 text +:+ "...") a)
              else
                Some (TrFinally n false, set_status_item "Status: No speech detected" a)
          | None =>
              Some (TrFinally n true, set_status_item "Status: Transcription error" a)
          end
      end
  | TrFinally n raised, TrTick =>
      let gone := bool_decide (tmp_files a !! n = None) in
      let a := set_tmp_files (delete n (tmp_files a)) a in
      let a := if raised || gone
               then set_status_item "Status: Error during transcription" a
               else a in
      Some (TrDone, set_title "🎙️" a)
  | _, _ => None
  end.

(** What the outside world hands to the loader. *)
Inductive load_in :=
  | LoadTick
  | LoadAnswer (ok : bool).   (* WhisperModel(...) returned, or raised *)

(** [load_model] (lines 59-70) *)
Definition load_model (i : load_in) (pc : load_pc) (a : App)
  : option (load_pc * App) :=
  match pc, i with
  | LoadStart, LoadTick =>
      let a := set_title "🎙️ (Loading...)" a in
      Some (Loading, set_status_item "Status: Loading Whisper model..." a)
  | Loading, LoadAnswer true =>
      let a := set_model (Some BaseModel) a in
      let a := set_title "🎙️" a in
      Some (LoadDone, set_status_item "Status: Ready" a)
  | Loading, LoadAnswer false =>
      let a := set_title "🎙️ (Error)" a in
      Some (LoadDone, set_status_item "Status: Error loading model" a)
  | _, _ => None
  end.

(** ** The interleaving semantics *)

Inductive event :=
  | EvPress (k : key)              (* the listener calls on_press *)
  | EvRelease (k : key)            (* the listener calls on_release *)
  | EvMenuStart                    (* menu item Start Recording *)
  | EvMenuStop                     (* menu item Stop Recording *)
  | EvSignal                       (* SIGINT or SIGTERM *)
  | EvJoined                       (* recording_thread.join() returns *)
  | EvLoader (i : load_in)
  | EvCapture (t : nat) (i : cap_in)
  | EvWorker (w : nat) (i : tr_in).

(** A callback can be entered: none is blocked in a join, and the
    application has not been told to quit.  With this guard [step] has the
    callbacks one at a time; the runs in which a callback of one thread is
    entered while the other thread waits in a join are those of [cstep]
    below. *)
Definition callback_ready (a : App) : bool :=
  match handler a with
  | Running => negb (quit a)
  | Joining _ => false
  end.

Definition step (e : event) (a : App) : option App :=
  match e with
  | EvPress k => if callback_ready a then Some (on_press k a) else None
  | EvRelease k => if callback_ready a then Some (on_release k a) else None
  | EvMenuStart => if callback_ready a then Some (start_recording_menu a) else None
  | EvMenuStop => if callback_ready a then Some (stop_recording_menu a) else None
  | EvSignal => if callback_ready a then Some (handle_shutdown a) else None
  | EvJoined =>
      match handler a with
      | Joining k =>
          if join_returns a
          then Some (resume k (set_handler Running (stop_recording_joined a)))
          else None
      | Running => None
      end
  | EvLoader i =>
      match load_model i (load_model_thread a) a with
      | Some (pc, a') => Some (set_load_model_thread pc a')
      | None => None
      end
  | EvCapture t i =>
      match capture_threads a !! t with
      | Some pc =>
          match record_audio i pc a with
          | Some (pc', a') =>
              Some (set_capture_threads (<[t := pc']> (capture_threads a')) a')
          | None => None
          end
      | None => None
      end
  | EvWorker w i =>
      match transcribe_threads a !! w with
      | Some pc =>
          match process_recording i pc a with
          | Some (pc', a') =>
              Some (set_transcribe_threads (<[w := pc']> (transcribe_threads a')) a')
          | None => None
          end
      | None => None
      end
  end.

(** A schedule, run from left to right; [None] when an event is not enabled
    where it stands. *)
Fixpoint run (es : list event) (a : App) : option App :=
  match es with
  | [] => Some a
  | e :: es' =>
      match step e a with
      | Some a' => run es' a'
      | None => None
      end
  end.

Definition reachable (a : App) : Prop :=
  exists es, run es init_app = Some a.

(** ** The controller's state, as the specification names it

    Recording lasts from [start_recording] until [stop_recording] has got
    its capture thread back (the title says Recording until then);
    Transcribing as long as a worker is at work; Idle otherwise. *)

Inductive State := Idle | Recording | Transcribing.

#[global] Instance State_eq_dec : EqDecision State.
Proof. solve_decision. Defined.

Definition joining (a : App) : bool :=
  match handler a with
  | Joining _ => true
  | Running => false
  end.

Definition tr_live (pc : tr_pc) : bool :=
  match pc with
  | TrDone => false
  | _ => true
  end.

Definition state (a : App) : State :=
  if recording a || joining a then Recording
  else if existsb tr_live (transcribe_threads a) then Transcribing
  else Idle.

(** The events that come from keys, menu items and signals. *)
Definition is_callback (e : event) : bool :=
  match e with
  | EvPress _ | EvRelease _ | EvMenuStart | EvMenuStop | EvSignal => true
  | _ => false
  end.

(** ** What the properties speak of *)

(** What a callback can do to the object: leave it alone, start a recording
    (only with the flag down), stop one (only with the flag up), or shut
    down. *)
Inductive effect (a : App) : App -> Prop :=
  | eff_none : effect a a
  | eff_start :
      recording a = false -> effect a (start_recording a)
  | eff_arm_start :
      recording a = false ->
      effect a (start_recording (set_is_recording_with_key63 true a))
  | eff_stop k :
      recording a = true -> effect a (stop_recording k a)
  | eff_disarm_stop k :
      recording a = true ->
      effect a (stop_recording k (set_is_recording_with_key63 false a))
  | eff_shutdown :
      recording a = false -> effect a (shutdown_rest a).

(** Every capture thread has ended. *)
Definition captures_ended (a : App) : Prop :=
  forall t pc, capture_threads a !! t = Some pc -> cap_ended pc = true.

(** With the callbacks one at a time: a capture thread that has not ended is
    the one [recording_thread] points at, and the flag is up or a
    [stop_recording] is waiting for it; and the flag is down while a
    callback waits. *)
Record capture_inv (a : App) : Prop := {
  inv_joining : joining a = true -> recording a = false;
  inv_live : forall t pc,
    capture_threads a !! t = Some pc -> cap_ended pc = false ->
    recording_thread a = Some t /\ (recording a = true \/ joining a = true)
}.

(** The trigger events that ask for a start: a press of an alternative key,
    the menu item, and a release of the Globe key while its toggle is off. *)
Definition requests_start (e : event) (a : App) : bool :=
  match e with
  | EvPress k =>
      in_special_keys k ||
      match vk_attr k with
      | Some vk => vk_is vk 49 || vk_is vk 55
      | None => false
      end
  | EvRelease k =>
      match vk_attr k with
      | Some vk => vk_is vk trigger_key && negb (is_recording_with_key63 a)
      | None => false
      end
  | EvMenuStart => true
  | _ => false
  end.


(** A schedule in which no callback is entered. *)
Definition threads_only (es : list event) : bool :=
  forallb (fun e => negb (is_callback e)) es.

(** The temporary file a worker holds, from its creation to its unlink. *)
Definition tr_name (pc : tr_pc) : option string :=
  match pc with
  | TrWrite n | TrEngine n | TrFinally n _ => Some n
  | _ => None
  end.

(** The wave writer has been closed. *)
Definition tr_written (pc : tr_pc) : bool :=
  match pc with
  | TrEngine _ | TrFinally _ _ => true
  | _ => false
  end.

(** The file a worker holds exists, is a complete wave file once the writer
    has been closed, and is held by no other worker. *)
Record files_inv (a : App) : Prop := {
  fi_present : forall w pc n,
    transcribe_threads a !! w = Some pc -> tr_name pc = Some n ->
    is_Some (tmp_files a !! n);
  fi_written : forall w pc n,
    transcribe_threads a !! w = Some pc -> tr_name pc = Some n ->
    tr_written pc = true ->
    exists d, tmp_files a !! n = Some (WavFile channels sample_size rate d);
  fi_distinct : forall w1 w2 pc1 pc2 n,
    transcribe_threads a !! w1 = Some pc1 ->
    transcribe_threads a !! w2 = Some pc2 ->
    tr_name pc1 = Some n -> tr_name pc2 = Some n -> w1 = w2
}.

(** ** Schedules used as examples *)

(** The state a schedule leads to from [init_app]. *)
Definition after (es : list event) : App :=
  default init_app (run es init_app).

Definition fn_key : key := KeyCode (Some trigger_key).
Definition chunk1 : frame := [Byte.x10; Byte.x00; Byte.xf0; Byte.xff].

Definition load_ok : list event :=
  [EvLoader LoadTick; EvLoader (LoadAnswer true)].

(** One read of the microphone on capture thread [t]. *)
Definition read_chunk (t : nat) (d : frame) : list event :=
  [EvCapture t CapTick; EvCapture t (CapGot (Some d)); EvCapture t CapTick].

(** The capture thread [t] sees the flag down and closes the stream. *)
Definition wind_down (t : nat) : list event :=
  [EvCapture t CapTick; EvCapture t CapTick].

(** Model loaded, Globe key released twice around one chunk of audio; the
    worker has been started and has not run yet. *)
Definition one_recording : list event :=
  load_ok ++ [EvRelease fn_key; EvCapture 0 (CapOpened true)] ++
  read_chunk 0 chunk1 ++ [EvRelease fn_key] ++ wind_down 0 ++ [EvJoined].

(** The worker [w] runs to its end; the engine answers [r]. *)
Definition transcription (w : nat) (name : string) (r : option (list string))
  : list event :=
  [EvWorker w TrTick; EvWorker w (TrNamed name); EvWorker w TrTick;
   EvWorker w (TrAnswer r); EvWorker w TrTick].

(** The Globe key is released once before the model has loaded. *)
Definition early_release : list event := [EvRelease fn_key] ++ load_ok.

(** The model is loaded, Space is pressed, and the device does not open. *)
Definition no_device : list event :=
  load_ok ++ [EvPress (KeyOf Key_space); EvCapture 0 (CapOpened false)].



(** The model is loaded, a recording is started with the Globe key and one
    chunk is read; then the signal arrives. *)
Definition recording_one_chunk : list event :=
  load_ok ++ [EvRelease fn_key; EvCapture 0 (CapOpened true)] ++
  read_chunk 0 chunk1.

(** ... and the handler gets its capture thread back. *)
Definition shutdown_while_recording : list event :=
  recording_one_chunk ++ [EvSignal] ++ wind_down 0 ++ [EvJoined].

(** One recording, transcribed to the end; the engine answers [r]. *)
Definition one_session (r : option (list string)) : list event :=
  one_recording ++ transcription 0 "tmp0.wav" r.

(** One recording whose worker has the wave file written and is about to
    call the engine. *)
Definition before_engine : list event :=
  one_recording ++
  [EvWorker 0 TrTick; EvWorker 0 (TrNamed "tmp0.wav"); EvWorker 0 TrTick].

(** Something is on the clipboard; then one session is transcribed. *)
Definition copied_before : App := set_clipboard "copied by the user" init_app.

(** ** More of what the properties speak of *)

(** How many steps of its own a capture thread has left once the flag is
    down. *)
Definition cap_rank (pc : cap_pc) : nat :=
  match pc with
  | CapRead => 5
  | CapAppend _ => 4
  | CapOpen => 3
  | CapTest => 2
  | CapClose => 1
  | CapDone | CapDead => 0
  end.

(** How many steps a transcription worker has left. *)
Definition tr_rank (pc : tr_pc) : nat :=
  match pc with
  | TrCheck => 5
  | TrTemp => 4
  | TrWrite _ => 3
  | TrEngine _ => 2
  | TrFinally _ _ => 1
  | TrDone => 0
  end.

(** The keys [insert_text] simulates for one paste. *)
Definition paste_combo : list keystroke :=
  [PressCmd; PressV; ReleaseV; ReleaseCmd].

(** The status line after a transcription with text (line 252). *)
Definition transcribed_status (text : string) : string :=
  "Status: Transcribed: " +:+ String.substring 0 30 text +:+ "...".

(** The capture thread [t] reads the chunks [ds] one after the other. *)
Definition reads (t : nat) (ds : list frame) : list event :=
  concat (map (read_chunk t) ds).

(** Something of a session exists: the flag is up, a stop is waiting, or a
    capture thread or a worker has been started. *)
Definition session_begun (a : App) : Prop :=
  recording a = true \/ joining a = true \/
  capture_threads a <> [] \/ transcribe_threads a <> [].

(** The model is never asked for before it is there, and the loader has
    returned once it is. *)
Record model_inv (a : App) : Prop := {
  mi_loaded : session_begun a -> is_Some (model a);
  mi_loader : is_Some (model a) -> load_model_thread a = LoadDone
}.

(** A worker past its call of the engine. *)
Definition tr_called (pc : tr_pc) : nat :=
  match pc with
  | TrFinally _ _ | TrDone => 1
  | _ => 0
  end.

(** A key that is neither the Globe key nor one of the alternative keys. *)
Definition other_key (k : key) : bool :=
  negb (in_special_keys k) &&
  match vk_attr k with
  | Some vk =>
      negb (vk_is vk trigger_key) && negb (vk_is vk 49) && negb (vk_is vk 55)
  | None => true
  end.

(** The loader has given up: no model, and nothing of a session. *)
Record model_missing (a : App) : Prop := {
  mm_model : model a = None;
  mm_loader : load_model_thread a = LoadDone;
  mm_recording : recording a = false;
  mm_handler : handler a = Running;
  mm_captures : capture_threads a = [];
  mm_workers : transcribe_threads a = [];
  mm_calls : engine_calls a = []
}.

(** An engine call on a complete wave file in the recording format. *)
Definition complete_call (c : string * option file) : Prop :=
  exists d, c.2 = Some (WavFile channels sample_size rate d).

(** The loader fails; then keys are pressed. *)
Definition load_failed : list event :=
  [EvLoader LoadTick; EvLoader (LoadAnswer false)].

Definition keys_after_failed_load : list event :=
  [EvRelease fn_key; EvPress (KeyOf Key_space); EvMenuStart;
   EvPress (KeyCode (Some 49%Z)); EvRelease (KeyOf Key_space)].

(** ** Two callback threads

    pynput calls [on_press] and [on_release] on its listener thread (lines
    74-76, 140); rumps calls the menu items, and Python the signal handler,
    on the main thread (lines 24-25, 153-161, 287-300).  No lock keeps the
    two apart: while one of them waits in the join of [stop_recording], the
    other can enter a callback.  On each thread the callbacks come one at a
    time, but for the signal handler, which Python also runs while the main
    thread waits in a join.  [Sys] gives each thread the joins it waits in,
    innermost first, each with the thread object it was called on: the value
    [recording_thread] had when the join began (line 184). *)

Inductive caller := Listener | MainThread.

#[global] Instance caller_eq_dec : EqDecision caller.
Proof. solve_decision. Defined.

(** A join a callback waits in: what is left of the callback, and the
    capture thread joined ([None]: there was no attribute
    [recording_thread], the join is skipped). *)
Definition pending : Type := cont * option nat.

Record Sys := mkSys {
  shared : App;                     (* the object; its [handler] is [Running] between steps *)
  listener_waits : list pending;    (* the joins the listener thread waits in *)
  main_waits : list pending         (* the joins the main thread waits in *)
}.

Definition init_sys : Sys := mkSys init_app [] [].

Definition waits_of (c : caller) (s : Sys) : list pending :=
  match c with
  | Listener => listener_waits s
  | MainThread => main_waits s
  end.

(** The thread a callback runs on, when it can be entered now. *)
Definition can_enter (e : event) (s : Sys) : option caller :=
  match e with
  | EvPress _ | EvRelease _ =>
      match listener_waits s with
      | [] => Some Listener
      | _ :: _ => None
      end
  | EvMenuStart | EvMenuStop =>
      match main_waits s with
      | [] => Some MainThread
      | _ :: _ => None
      end
  | EvSignal => Some MainThread
  | _ => None
  end.

(** The caller [c], with the joins [ws] around it, has run a method as far
    as it goes: the method left the object as [a], whose [handler] says
    whether [c] has returned or waits in [self.recording_thread.join()]. *)
Definition park (c : caller) (a : App) (ws : list pending) (s : Sys) : Sys :=
  let ws' :=
    match handler a with
    | Joining k => (k, recording_thread a) :: ws
    | Running => ws
    end in
  match c with
  | Listener => mkSys (set_handler Running a) ws' (main_waits s)
  | MainThread => mkSys (set_handler Running a) (listener_waits s) ws'
  end.

(** May the join called on the thread [t] return? *)
Definition join_done (t : option nat) (a : App) : bool :=
  match t with
  | None => true
  | Some t =>
      match capture_threads a !! t with
      | Some pc => cap_ended pc
      | None => true
      end
  end.

Inductive cevent :=
  | CCall (e : event)      (* a callback is entered on the thread that delivers it *)
  | CJoined (c : caller)   (* the innermost join [c] waits in returns *)
  | CThread (e : event).   (* a step of the loader, a capture thread or a worker *)

Definition is_thread (e : event) : bool :=
  match e with
  | EvLoader _ | EvCapture _ _ | EvWorker _ _ => true
  | _ => false
  end.

(** One step of the program with its two callback threads.  The methods and
    the threads' steps are those of [step]; whether a callback can be
    entered depends on its own thread only. *)
Definition cstep (e : cevent) (s : Sys) : option Sys :=
  match e with
  | CCall e =>
      match can_enter e s with
      | Some c =>
          match step e (shared s) with
          | Some a' => Some (park c a' (waits_of c s) s)
          | None => None
          end
      | None => None
      end
  | CJoined c =>
      match waits_of c s with
      | (k, t) :: ws =>
          if join_done t (shared s)
          then Some (park c (resume k (stop_recording_joined (shared s))) ws s)
          else None
      | [] => None
      end
  | CThread e =>
      if is_thread e then
        match step e (shared s) with
        | Some a' => Some (mkSys a' (listener_waits s) (main_waits s))
        | None => None
        end
      else None
  end.

Fixpoint crun (es : list cevent) (s : Sys) : option Sys :=
  match es with
  | [] => Some s
  | e :: es' =>
      match cstep e s with
      | Some s' => crun es' s'
      | None => None
      end
  end.

Definition creachable (s : Sys) : Prop :=
  exists es, crun es init_sys = Some s.


(** The capture thread the innermost join of [c] was called on. *)
Definition joined_of (c : caller) (s : Sys) : option nat :=
  match waits_of c s with
  | (_, t) :: _ => t
  | [] => None
  end.


(** One of the joins in [ws] was called on the thread [t]. *)
Definition joins (ws : list pending) (t : nat) : Prop :=
  exists k, (k, Some t) ∈ ws.

(** The caller [c] waits in a join called on the thread [t]. *)
Definition waits_for (c : caller) (t : nat) (s : Sys) : Prop :=
  joins (waits_of c s) t.

(** A capture thread that has not ended is the one [recording_thread] points
    at while the flag is up, or one a [stop_recording] is waiting for. *)
Record sys_inv (s : Sys) : Prop := {
  si_handler : handler (shared s) = Running;
  si_live : forall t pc,
    capture_threads (shared s) !! t = Some pc -> cap_ended pc = false ->
    (recording (shared s) = true /\ recording_thread (shared s) = Some t) \/
    exists c, waits_for c t s
}.

(** The capture threads of the object [a], as a method run by [c] inside the
    joins [ws] leaves it, are accounted for: by the flag or the join the
    method ends in, by one of the joins [ws], or by a join of the other
    caller. *)
Definition accounted (c : caller) (ws : list pending) (s : Sys) (a : App)
  : Prop :=
  forall t pc,
    capture_threads a !! t = Some pc -> cap_ended pc = false ->
    recording_thread a = Some t /\ (recording a = true \/ joining a = true) \/
    joins ws t \/
    exists c', c' <> c /\ waits_for c' t s.


(** The state a schedule leads to from [init_sys]. *)
Definition cafter (es : list cevent) : Sys :=
  default init_sys (crun es init_sys).


(** The Globe key is released twice while capture thread 0 is inside a
    read: the listener waits in its join. *)
Definition stop_waits_for_read : list cevent :=
  map CThread load_ok ++
  [CCall (EvRelease fn_key);
   CThread (EvCapture 0 (CapOpened true)); CThread (EvCapture 0 CapTick);
   CCall (EvRelease fn_key)].





(** * Properties *)

(** ** What a callback can do *)

Create HintDb app.

#[local] Hint Constructors effect : app.

Lemma negb_false_eq b : negb b = true -> b = false.
Proof. by destruct b. Qed.

#[local] Hint Resolve negb_false_eq : app.

Lemma on_release_special_effect k a : effect a (on_release_special k a).
Proof.
  unfold on_release_special.
  destruct (in_special_keys k); simpl; [|constructor].
  destruct (recording a) eqn:Hr; eauto with app.
Qed.

Lemma on_press_effect k a : effect a (on_press k a).
Proof.
  destruct k as [vk|s]; unfold on_press; simpl.
  - destruct (negb (vk_is vk trigger_key) && negb (recording a)) eqn:Hg;
      [|constructor].
    apply andb_prop in Hg as [_ Hr%negb_false_eq].
    destruct (vk_is vk 49 || vk_is vk 55); eauto with app.
  - destruct (bool_decide (s ∈ special_keys) && negb (recording a)) eqn:Hg;
      [|constructor].
    apply andb_prop in Hg as [_ Hr%negb_false_eq]. eauto with app.
Qed.

Lemma on_release_effect k a : effect a (on_release k a).
Proof.
  destruct k as [vk|s]; [|apply on_release_special_effect].
  unfold on_release, on_release_special; simpl.
  destruct (vk_is vk trigger_key).
  - destruct (recording a) eqn:Hr, (is_recording_with_key63 a) eqn:Hk;
      simpl; eauto with app.
  - destruct (recording a) eqn:Hr; [|constructor].
    destruct (vk_is vk 49 || vk_is vk 55); eauto with app.
Qed.

Lemma callback_effect e a a' :
  is_callback e = true -> step e a = Some a' ->
  handler a = Running /\ quit a = false /\ effect a a'.
Proof.
  intros He Hs.
  assert (callback_ready a = true /\
          (a' = on_press (match e with EvPress k => k | _ => KeyCode None end) a \/
           a' = on_release (match e with EvRelease k => k | _ => KeyCode None end) a \/
           a' = start_recording_menu a \/ a' = stop_recording_menu a \/
           a' = handle_shutdown a)) as [Hready Hcases].
  { destruct e; try discriminate He; simpl in Hs;
      destruct (callback_ready a); simplify_eq; split; auto 10. }
  unfold callback_ready in Hready.
  destruct (handler a); [|discriminate].
  split; [done|]. split; [by apply negb_false_eq|].
  destruct Hcases as [->|[->|[->|[->| ->]]]].
  - apply on_press_effect.
  - apply on_release_effect.
  - unfold start_recording_menu. destruct (recording a) eqn:Hr; simpl; eauto with app.
  - unfold stop_recording_menu. destruct (recording a) eqn:Hr; simpl; eauto with app.
  - unfold handle_shutdown. destruct (recording a) eqn:Hr; simpl; eauto with app.
Qed.

(** ** The capture threads: [capture_inv] holds in every state [step] reaches *)

Lemma capture_inv_ended a :
  capture_inv a -> recording a = false -> joining a = false -> captures_ended a.
Proof.
  intros [_ Hl] Hr Hj t pc Ht.
  destruct (cap_ended pc) eqn:He; [done|].
  destruct (Hl t pc Ht He) as [_ [?|?]]; congruence.
Qed.

Lemma capture_inv_init : capture_inv init_app.
Proof. split; [done|]. intros t pc Ht. simpl in Ht. by rewrite lookup_nil in Ht. Qed.

Lemma start_recording_inv a :
  capture_inv a -> recording a = false -> handler a = Running ->
  capture_inv (start_recording a).
Proof.
  intros Hi Hr Hh.
  assert (Hj : joining a = false) by (unfold joining; by rewrite Hh).
  pose proof (capture_inv_ended a Hi Hr Hj) as Hend.
  destruct Hi as [Hjoin Hl]. unfold start_recording.
  destruct (model a); (split; [unfold joining; simpl; by rewrite Hh|]); simpl.
  - intros t pc Ht He.
    apply lookup_app_Some in Ht as [Ht|[Hlen Ht]].
    + apply Hend in Ht. congruence.
    + apply list_lookup_singleton_Some in Ht as [Ht _].
      split; [|by left]. f_equal. lia.
  - intros t pc Ht He. apply Hend in Ht. congruence.
Qed.

Lemma effect_inv a a' :
  capture_inv a -> handler a = Running -> effect a a' -> capture_inv a'.
Proof.
  intros Hi Hh Heff. destruct Heff as [|Hr|Hr|k Hr|k Hr|Hr].
  - done.
  - by apply start_recording_inv.
  - apply start_recording_inv; [|done..].
    destruct Hi as [Hj Hl]. by split.
  - destruct Hi as [Hj Hl]. split; [done|]. simpl. intros t pc Ht He.
    destruct (Hl t pc Ht He) as [? _]. split; [done|by right].
  - destruct Hi as [Hj Hl]. split; [done|]. simpl. intros t pc Ht He.
    destruct (Hl t pc Ht He) as [? _]. split; [done|by right].
  - destruct Hi as [Hj Hl]. by split.
Qed.

Lemma record_audio_self i pc a pc' a' :
  record_audio i pc a = Some (pc', a') ->
  cap_ended pc = false /\ recording a' = recording a /\
  handler a' = handler a /\ recording_thread a' = recording_thread a /\
  capture_threads a' = capture_threads a /\
  transcribe_threads a' = transcribe_threads a /\
  tmp_files a' = tmp_files a /\ model a' = model a.
Proof.
  unfold record_audio. intros H.
  repeat case_match; simplify_eq; simpl; done.
Qed.

Lemma process_recording_self i pc a pc' a' :
  process_recording i pc a = Some (pc', a') ->
  recording a' = recording a /\ frames a' = frames a /\
  handler a' = handler a /\ recording_thread a' = recording_thread a /\
  capture_threads a' = capture_threads a /\
  transcribe_threads a' = transcribe_threads a /\
  model a' = model a /\ quit a' = quit a.
Proof.
  unfold process_recording. intros H.
  repeat case_match; simplify_eq; simpl; done.
Qed.

Lemma load_model_self i pc a pc' a' :
  load_model i pc a = Some (pc', a') ->
  recording a' = recording a /\ frames a' = frames a /\
  handler a' = handler a /\ recording_thread a' = recording_thread a /\
  capture_threads a' = capture_threads a /\
  transcribe_threads a' = transcribe_threads a /\
  tmp_files a' = tmp_files a /\ clipboard a' = clipboard a /\
  quit a' = quit a.
Proof.
  unfold load_model. intros H.
  repeat case_match; simplify_eq; simpl; done.
Qed.

(** A [stop_recording] whose join has returned leaves every capture thread
    ended, the flag down and no callback waiting. *)
Lemma joined_ended a k a' :
  capture_inv a -> handler a = Joining k -> join_returns a = true ->
  a' = resume k (set_handler Running (stop_recording_joined a)) ->
  captures_ended a' /\ recording a' = false /\ handler a' = Running /\
  recording_thread a' = recording_thread a /\
  capture_threads a' = capture_threads a /\ frames a' = frames a /\
  transcribe_threads a' = transcribe_threads a ++ [TrCheck].
Proof.
  intros [Hj Hl] Hh Hjoin ->.
  assert (Hr : recording a = false) by (apply Hj; unfold joining; by rewrite Hh).
  assert (Hend : captures_ended a).
  { intros t pc Ht. destruct (cap_ended pc) eqn:He; [done|].
    destruct (Hl t pc Ht He) as [Hrt _].
    unfold join_returns in Hjoin. rewrite Hrt, Ht in Hjoin. congruence. }
  destruct k as [|key|]; simpl.
  - done.
  - unfold on_release_special; simpl. rewrite Hr, andb_false_r. done.
  - done.
Qed.

Lemma capture_inv_ext a a' :
  recording a' = recording a -> handler a' = handler a ->
  recording_thread a' = recording_thread a ->
  capture_threads a' = capture_threads a ->
  capture_inv a -> capture_inv a'.
Proof.
  intros Hr Hh Hrt Hc [Hj Hl].
  split; unfold joining in *; rewrite ?Hr, ?Hh, ?Hrt, ?Hc; done.
Qed.

Lemma step_inv e a a' : capture_inv a -> step e a = Some a' -> capture_inv a'.
Proof.
  intros Hi Hs.
  destruct (is_callback e) eqn:Hcb.
  { destruct (callback_effect e a a' Hcb Hs) as (Hh & _ & Heff).
    by eapply effect_inv. }
  destruct e; try discriminate Hcb; simpl in Hs.
  - (* EvJoined *)
    destruct (handler a) as [|k] eqn:Hh; [done|].
    destruct (join_returns a) eqn:Hjoin; [|done]. simplify_eq.
    edestruct (joined_ended a k) as (Hend & Hr & Hrun & _); [done..|].
    split.
    + unfold joining. by rewrite Hrun.
    + intros t pc Ht He. apply Hend in Ht. congruence.
  - (* EvLoader *)
    destruct (load_model i (load_model_thread a) a) as [[pc a1]|] eqn:Hl; [|done].
    simplify_eq. apply load_model_self in Hl as (Hr & _ & Hh & Hrt & Hc & _).
    by eapply capture_inv_ext.
  - (* EvCapture *)
    destruct (capture_threads a !! t) as [pc|] eqn:Ht; [|done].
    destruct (record_audio i pc a) as [[pc' a1]|] eqn:Hc; [|done].
    simplify_eq. apply record_audio_self in Hc as (He & Hr & Hh & Hrt & Hc & _).
    destruct Hi as [Hj Hlive].
    split; unfold joining in *; simpl; rewrite ?Hh, ?Hr, ?Hrt, ?Hc; [done|].
    intros t' pc'' Ht' He'.
    destruct (decide (t = t')) as [<-|Hne].
    + by apply (Hlive t pc).
    + rewrite list_lookup_insert_ne in Ht' by done. by apply (Hlive t' pc'').
  - (* EvWorker *)
    destruct (transcribe_threads a !! w) as [pc|] eqn:Hw; [|done].
    destruct (process_recording i pc a) as [[pc' a1]|] eqn:Hp; [|done].
    simplify_eq. apply process_recording_self in Hp as (Hr & _ & Hh & Hrt & Hc & _).
    by eapply capture_inv_ext.
Qed.

Lemma run_inv es a a' : capture_inv a -> run es a = Some a' -> capture_inv a'.
Proof.
  revert a. induction es as [|e es IH]; intros a Hi Hr; simpl in Hr.
  - by simplify_eq.
  - destruct (step e a) as [a1|] eqn:Hs; [|done].
    eapply IH; [|done]. by eapply step_inv.
Qed.

Lemma reachable_inv a : reachable a -> capture_inv a.
Proof. intros [es Hr]. eapply run_inv; [apply capture_inv_init|done]. Qed.

Lemma reachable_step e a a' : reachable a -> step e a = Some a' -> reachable a'.
Proof.
  intros [es Hr] Hs. exists (es ++ [e]).
  revert Hr. generalize init_app. induction es as [|e0 es IH]; intros b Hr; simpl in *.
  - simplify_eq. by rewrite Hs.
  - destruct (step e0 b); [by apply IH|done].
Qed.

Lemma captures_ended_no_step a t i :
  captures_ended a -> step (EvCapture t i) a = None.
Proof.
  intros Hend. simpl.
  destruct (capture_threads a !! t) as [pc|] eqn:Ht; [|done].
  apply Hend in Ht. by destruct pc, i.
Qed.

Lemma state_not_recording a :
  state a <> Recording <-> recording a = false /\ joining a = false.
Proof.
  unfold state. destruct (recording a), (joining a); simpl;
    [split; [congruence|intros [? ?]; congruence]..|].
  destruct (existsb tr_live (transcribe_threads a)); split; done.
Qed.

(** ** The capture loop when callbacks do not overlap *)

(** In the runs of [step], in which no callback is entered while another
    waits in its join: in every reachable state that is not Recording every
    capture thread has ended, so no step of [record_audio] is left to run;
    and in the state in which [stop_recording]'s join has returned every
    capture thread has ended as well. *)
Lemma capture_stops_with_recording a :
  reachable a ->
  (state a <> Recording ->
   captures_ended a /\ forall t i, step (EvCapture t i) a = None) /\
  (forall a', step EvJoined a = Some a' ->
   captures_ended a' /\ forall t i, step (EvCapture t i) a' = None).
Proof.
  intros Hreach. pose proof (reachable_inv a Hreach) as Hi. split.
  - intros [Hr Hj]%state_not_recording.
    pose proof (capture_inv_ended a Hi Hr Hj) as Hend.
    split; [done|]. intros t i. by apply captures_ended_no_step.
  - intros a' Hs. simpl in Hs.
    destruct (handler a) as [|k] eqn:Hh; [done|].
    destruct (join_returns a) eqn:Hjoin; [|done]. simplify_eq.
    edestruct (joined_ended a k) as (Hend & _); [done..|].
    split; [done|]. intros t i. by apply captures_ended_no_step.
Qed.

(** While [stop_recording] waits in its join the flag is already down and
    the loop finishes the read it was in: that one frame is still appended,
    and the thread then leaves the loop. *)
Lemma capture_during_join a t d a' :
  capture_threads a !! t = Some (CapAppend d) -> recording a = false ->
  step (EvCapture t CapTick) a = Some a' ->
  frames a' = frames a ++ [d] /\
  exists a'', step (EvCapture t CapTick) a' = Some a'' /\
    capture_threads a'' !! t = Some CapClose /\ frames a'' = frames a'.
Proof.
  intros Ht Hr Hs. simpl in Hs. rewrite Ht in Hs. simpl in Hs. simplify_eq.
  split; [done|]. simpl.
  rewrite list_lookup_insert_eq by (by eapply lookup_lt_Some).
  simpl. rewrite Hr. eexists; split; [done|]. simpl.
  rewrite list_lookup_insert_eq; [done|].
  rewrite length_insert. by eapply lookup_lt_Some.
Qed.

(** ** C8: the capture loop and the two callback threads *)

Lemma crun_snoc es e s :
  crun (es ++ [e]) s
  = match crun es s with Some s' => cstep e s' | None => None end.
Proof.
  revert s. induction es as [|e0 es IH]; intros s; simpl.
  - by destruct (cstep e s).
  - destruct (cstep e0 s); [apply IH|done].
Qed.

Lemma can_enter_callback e s c : can_enter e s = Some c -> is_callback e = true.
Proof. by destruct e. Qed.

Lemma shared_park c a ws s : shared (park c a ws s) = set_handler Running a.
Proof. by destruct c. Qed.

Lemma waits_park c a ws s :
  waits_of c (park c a ws s)
  = match handler a with
    | Joining k => (k, recording_thread a) :: ws
    | Running => ws
    end.
Proof. by destruct c. Qed.

Lemma waits_park_other c c' a ws s :
  c' <> c -> waits_of c' (park c a ws s) = waits_of c' s.
Proof. by destruct c, c'. Qed.

(** A method that leaves the threads accounted for leaves the invariant. *)
Lemma park_inv c a ws s : accounted c ws s a -> sys_inv (park c a ws s).
Proof.
  intros Hacc. split; [by rewrite shared_park|].
  intros t pc. rewrite shared_park. simpl. intros Ht He.
  destruct (Hacc t pc Ht He) as [[Hrt [Hr|Hj]]|[[k Hk]|(c' & Hne & Hw)]].
  - by left.
  - right. exists c. unfold waits_for. rewrite waits_park.
    unfold joining in Hj. destruct (handler a) as [|k]; [done|].
    exists k. rewrite Hrt. apply list_elem_of_here.
  - right. exists c. unfold waits_for. rewrite waits_park.
    exists k. destruct (handler a); [done|]. by apply list_elem_of_further.
  - right. exists c'. unfold waits_for. by rewrite waits_park_other.
Qed.

Lemma accounted_ext c ws s a a' :
  recording a' = recording a -> handler a' = handler a ->
  recording_thread a' = recording_thread a ->
  capture_threads a' = capture_threads a ->
  accounted c ws s a -> accounted c ws s a'.
Proof.
  intros Hr Hh Hrt Hc Hacc t pc. unfold joining. rewrite Hr, Hh, Hrt, Hc.
  apply Hacc.
Qed.

(** As [c] enters a method the threads are accounted for. *)
Lemma accounted_enter c s :
  sys_inv s -> accounted c (waits_of c s) s (shared s).
Proof.
  intros [Hh Hl] t pc Ht He.
  destruct (Hl t pc Ht He) as [[Hr Hrt]|[c' Hw]]; [left; auto|].
  right. destruct (decide (c' = c)) as [->|Hne]; [by left|].
  right. by exists c'.
Qed.

(** As [c] comes back from a join the threads are accounted for without
    it. *)
Lemma accounted_back c s k t ws :
  sys_inv s -> waits_of c s = (k, t) :: ws ->
  join_done t (shared s) = true ->
  accounted c ws s (shared s).
Proof.
  intros [Hh Hl] Hws Hj t' pc Ht He.
  destruct (Hl t' pc Ht He) as [[Hr Hrt]|[c' Hw]]; [left; auto|].
  right. destruct (decide (c' = c)) as [->|Hne]; [|right; by exists c'].
  left. destruct Hw as [k' Hk']. rewrite Hws in Hk'.
  apply elem_of_cons in Hk' as [Heq|Hin]; [|by exists k'].
  simplify_eq. unfold join_done in Hj. rewrite Ht in Hj. congruence.
Qed.

Lemma accounted_stop c ws s k a :
  accounted c ws s a -> accounted c ws s (stop_recording k a).
Proof.
  intros Hacc t pc Ht He.
  destruct (Hacc t pc Ht He) as [[Hrt _]|Hw]; [|by right].
  left. split; [done|]. by right.
Qed.

Lemma accounted_start c ws s a :
  accounted c ws s a -> recording a = false -> handler a = Running ->
  accounted c ws s (start_recording a).
Proof.
  intros Hacc Hr Hh. unfold start_recording.
  destruct (model a).
  - intros t pc Ht He. simpl in Ht.
    apply lookup_app_Some in Ht as [Ht|[Hlen Ht]].
    + destruct (Hacc t pc Ht He) as [[_ [?|Hj]]|Hw]; [congruence| |by right].
      unfold joining in Hj. by rewrite Hh in Hj.
    + apply list_lookup_singleton_Some in Ht as [Ht _].
      left. simpl. split; [f_equal; lia|by left].
  - by eapply accounted_ext.
Qed.

Lemma accounted_effect c ws s a a' :
  accounted c ws s a -> handler a = Running -> effect a a' ->
  accounted c ws s a'.
Proof.
  intros Hacc Hh Heff. destruct Heff as [|Hr|Hr|k Hr|k Hr|Hr].
  - done.
  - by apply accounted_start.
  - apply accounted_start; [|done..]. by eapply accounted_ext.
  - by apply accounted_stop.
  - apply accounted_stop. by eapply accounted_ext.
  - by eapply accounted_ext.
Qed.

Lemma accounted_resume c ws s k a :
  accounted c ws s a -> accounted c ws s (resume k (stop_recording_joined a)).
Proof.
  intros Hacc.
  assert (H1 : accounted c ws s (stop_recording_joined a))
    by (by eapply accounted_ext).
  destruct k as [|key|]; simpl.
  - done.
  - unfold on_release_special. destruct (_ && _); [|done].
    by apply accounted_stop.
  - by eapply accounted_ext.
Qed.


(** A step of a thread leaves the flag and [recording_thread] alone, and of
    the capture threads it moves at most one, which had not ended. *)
Lemma thread_step_self e a a' :
  is_thread e = true -> step e a = Some a' ->
  recording a' = recording a /\ handler a' = handler a /\
  recording_thread a' = recording_thread a /\
  length (capture_threads a') = length (capture_threads a) /\
  forall t pc', capture_threads a' !! t = Some pc' ->
    exists pc, capture_threads a !! t = Some pc /\
      (cap_ended pc = true -> pc' = pc) /\
      (cap_ended pc' = false -> cap_ended pc = false).
Proof.
  intros He Hs. destruct e; try discriminate He; simpl in Hs.
  - destruct (load_model i (load_model_thread a) a) as [[pc a1]|] eqn:Hl; [|done].
    simplify_eq. apply load_model_self in Hl as (Hr & _ & Hh & Hrt & Hc & _).
    simpl. rewrite Hr, Hh, Hrt, Hc. repeat split; try done.
    intros t pc' Ht. by exists pc'.
  - destruct (capture_threads a !! t) as [pc|] eqn:Ht; [|done].
    destruct (record_audio i pc a) as [[pc' a1]|] eqn:Hc; [|done].
    simplify_eq. apply record_audio_self in Hc as (He' & Hr & Hh & Hrt & Hc & _).
    simpl. rewrite Hr, Hh, Hrt, Hc, length_insert. repeat split; try done.
    intros t' pc'' Ht'.
    destruct (decide (t = t')) as [<-|Hne].
    + exists pc. split; [done|]. split; [congruence|done].
    + rewrite list_lookup_insert_ne in Ht' by done. by exists pc''.
  - destruct (transcribe_threads a !! w) as [pc|] eqn:Hw; [|done].
    destruct (process_recording i pc a) as [[pc' a1]|] eqn:Hp; [|done].
    simplify_eq. apply process_recording_self in Hp as (Hr & _ & Hh & Hrt & Hc & _).
    simpl. rewrite Hr, Hh, Hrt, Hc. repeat split; try done.
    intros t pc'' Ht. by exists pc''.
Qed.

Lemma sys_inv_init : sys_inv init_sys.
Proof.
  split; [done|]. intros t pc Ht. simpl in Ht. by rewrite lookup_nil in Ht.
Qed.

Lemma cstep_inv e s s' : sys_inv s -> cstep e s = Some s' -> sys_inv s'.
Proof.
  intros Hi Hs. destruct e as [e|c|e]; simpl in Hs.
  - (* a callback *)
    destruct (can_enter e s) as [c|] eqn:Hc; [|done].
    destruct (step e (shared s)) as [a'|] eqn:Hst; [|done]. simplify_eq.
    apply can_enter_callback in Hc as Hcb.
    destruct (callback_effect e _ _ Hcb Hst) as (Hh & _ & Heff).
    apply park_inv. eapply accounted_effect; [|done..].
    by apply accounted_enter.
  - (* a join returns *)
    destruct (waits_of c s) as [|[k t] ws] eqn:Hws; [done|].
    destruct (join_done t (shared s)) eqn:Hj; [|done]. simplify_eq.
    apply park_inv, accounted_resume. by eapply accounted_back.
  - (* a thread *)
    destruct (is_thread e) eqn:He; [|done].
    destruct (step e (shared s)) as [a'|] eqn:Hst; [|done]. simplify_eq.
    destruct (thread_step_self e _ _ He Hst) as (Hr & Hh & Hrt & _ & Hthreads).
    destruct Hi as [Hrun Hl]. split; simpl; [congruence|].
    intros t pc' Ht Hlive. rewrite Hr, Hrt.
    destruct (Hthreads t pc' Ht) as (pc & Hpc & _ & Hlive').
    destruct (Hl t pc Hpc (Hlive' Hlive)) as [?|[c Hw]]; [by left|].
    right. exists c. by destruct c.
Qed.

Lemma creachable_inv s : creachable s -> sys_inv s.
Proof.
  intros [es Hr]. revert s Hr.
  induction es as [|e es IH] using rev_ind; intros s Hr.
  - simpl in Hr. simplify_eq. apply sys_inv_init.
  - rewrite crun_snoc in Hr.
    destruct (crun es init_sys) as [s0|] eqn:Hs0; [|done].
    eapply cstep_inv; [by apply IH|done].
Qed.














(** ** C1: start requests while a session is under way *)

(** C1, as amended.  A start request is ignored while the recording flag is
    up: the whole object, frame buffer included, is unchanged.  While the
    flag is down it is not ignored, whether or not a transcription is still
    running: with the model loaded the frame buffer is emptied and a new
    recording begins, and the running workers stay as they are. *)
Theorem start_request_guard e a a' :
  requests_start e a = true -> step e a = Some a' ->
  (recording a = true -> a' = a) /\
  (recording a = false -> model a <> None ->
   recording a' = true /\ frames a' = [] /\ state a' = Recording /\
   transcribe_threads a' = transcribe_threads a).
Proof.
  intros Hreq Hs.
  assert (Hstart : forall b, model b <> None ->
            recording (start_recording b) = true /\
            frames (start_recording b) = [] /\
            state (start_recording b) = Recording /\
            transcribe_threads (start_recording b) = transcribe_threads b).
  { intros b Hm. unfold start_recording, state.
    destruct (model b); [done|congruence]. }
  destruct e; try discriminate Hreq; simpl in Hs, Hreq;
    destruct (callback_ready a); simplify_eq.
  - (* on_press *)
    destruct k as [vk|s]; unfold on_press; simpl in *.
    + destruct (vk_is vk 49 || vk_is vk 55) eqn:Halt; [|done].
      assert (Hne : vk_is vk trigger_key = false).
      { destruct vk as [v|]; [|done]. simpl in *.
        unfold trigger_key.
        apply orb_prop in Halt as [?%Z.eqb_eq|?%Z.eqb_eq]; subst; done. }
      rewrite Hne. simpl. split; intros Hr; rewrite Hr; simpl; [done|].
      apply Hstart.
    + rewrite orb_false_r in Hreq. rewrite Hreq. simpl.
      split; intros Hr; rewrite Hr; simpl; [done|]. apply Hstart.
  - (* on_release *)
    destruct k as [vk|s]; [|done]. unfold on_release, on_release_special. simpl in *.
    apply andb_prop in Hreq as [Hvk Hk%negb_false_eq]. rewrite Hvk, Hk.
    split; intros Hr; rewrite Hr; simpl; [done|].
    intros Hm. by apply (Hstart (set_is_recording_with_key63 true a)).
  - (* the menu item *)
    unfold start_recording_menu.
    split; intros Hr; rewrite Hr; simpl; [done|]. apply Hstart.
Qed.

Lemma start_request_guard_witness :
  requests_start (EvPress (KeyOf Key_space)) (after one_recording) = true /\
  step (EvPress (KeyOf Key_space)) (after one_recording)
    = Some (after (one_recording ++ [EvPress (KeyOf Key_space)])) /\
  (recording (after one_recording) = false ->
   model (after one_recording) <> None ->
   recording (after (one_recording ++ [EvPress (KeyOf Key_space)])) = true /\
   frames (after (one_recording ++ [EvPress (KeyOf Key_space)])) = [] /\
   state (after (one_recording ++ [EvPress (KeyOf Key_space)])) = Recording /\
   transcribe_threads (after (one_recording ++ [EvPress (KeyOf Key_space)]))
     = transcribe_threads (after one_recording)).
Proof.
  assert (H1 : requests_start (EvPress (KeyOf Key_space)) (after one_recording) = true)
    by reflexivity.
  assert (H2 : step (EvPress (KeyOf Key_space)) (after one_recording)
               = Some (after (one_recording ++ [EvPress (KeyOf Key_space)])))
    by (vm_compute; reflexivity).
  split; [exact H1|]. split; [exact H2|].
  exact (proj2 (start_request_guard _ _ _ H1 H2)).
Defined.

(** C1 fails as stated: a press of Space while the first session is being
    transcribed is not ignored.  The state goes from Transcribing to
    Recording and the frame buffer, which held the first session's audio, is
    emptied. *)
Lemma start_while_transcribing_not_ignored :
  run one_recording init_app = Some (after one_recording) /\
  state (after one_recording) = Transcribing /\
  frames (after one_recording) = [chunk1] /\
  requests_start (EvPress (KeyOf Key_space)) (after one_recording) = true /\
  step (EvPress (KeyOf Key_space)) (after one_recording)
    = Some (after (one_recording ++ [EvPress (KeyOf Key_space)])) /\
  state (after (one_recording ++ [EvPress (KeyOf Key_space)])) = Recording /\
  frames (after (one_recording ++ [EvPress (KeyOf Key_space)])) = [].
Proof. vm_compute. repeat split; reflexivity. Qed.

(** ** C3 and C2: the Globe key's toggle *)

(** A release of the Globe key before the model is loaded: the start is
    refused, but the toggle has been switched on before [start_recording]
    looked at the model. *)
Lemma rejected_release a :
  callback_ready a = true -> model a = None ->
  recording a = false -> is_recording_with_key63 a = false ->
  step (EvRelease fn_key) a
  = Some (set_status_item "Status: Waiting for model to load"
            (set_is_recording_with_key63 true a)).
Proof.
  intros Hready Hm Hr Hk. simpl. rewrite Hready.
  unfold on_release, on_release_special, start_recording. simpl.
  by rewrite Hr, Hk, Hm.
Qed.

(** The other ways to ask for a start leave everything but the status as it
    was when they are refused. *)
Lemma rejected_press s a :
  callback_ready a = true -> model a = None -> recording a = false ->
  s ∈ special_keys ->
  step (EvPress (KeyOf s)) a
  = Some (set_status_item "Status: Waiting for model to load" a).
Proof.
  intros Hready Hm Hr Hs. simpl. rewrite Hready.
  unfold on_press, start_recording. simpl.
  by rewrite bool_decide_eq_true_2, Hr, Hm.
Qed.

(** With the flag down and the toggle on, a release of the Globe key does
    nothing at all. *)
Lemma release_while_stuck a :
  callback_ready a = true ->
  recording a = false -> is_recording_with_key63 a = true ->
  step (EvRelease fn_key) a = Some a.
Proof.
  intros Hready Hr Hk. simpl. rewrite Hready.
  unfold on_release, on_release_special. simpl. by rewrite Hr, Hk.
Qed.

(** With the toggle off, the model loaded and the flag down, a release of
    the Globe key starts a recording and switches the toggle on. *)
Lemma first_release_starts a :
  callback_ready a = true -> model a <> None ->
  recording a = false -> is_recording_with_key63 a = false ->
  exists a', step (EvRelease fn_key) a = Some a' /\
    state a' = Recording /\ recording a' = true /\
    is_recording_with_key63 a' = true /\ frames a' = [] /\
    handler a' = Running /\ quit a' = quit a /\
    transcribe_threads a' = transcribe_threads a.
Proof.
  intros Hready Hm Hr Hk. simpl. rewrite Hready.
  unfold on_release, on_release_special, start_recording. simpl.
  rewrite Hr, Hk. simpl.
  unfold callback_ready in Hready.
  destruct (model a); [|done].
  destruct (handler a) eqn:Hh; [|done].
  eexists; split; [done|]. unfold state. simpl. by rewrite Hh.
Qed.

(** With the toggle on and the flag up, the next release clears both and
    waits for the capture thread; once that has ended the transcription
    worker is started. *)
Lemma second_release_stops a :
  callback_ready a = true ->
  recording a = true -> is_recording_with_key63 a = true ->
  exists a', step (EvRelease fn_key) a = Some a' /\
    recording a' = false /\ is_recording_with_key63 a' = false /\
    handler a' = Joining (KReleaseSpecial fn_key) /\
    frames a' = frames a /\ capture_threads a' = capture_threads a /\
    transcribe_threads a' = transcribe_threads a.
Proof.
  intros Hready Hr Hk. simpl. rewrite Hready.
  unfold on_release, on_release_special. simpl. rewrite Hr, Hk. simpl.
  eexists; split; done.
Qed.

(** C3: the code departs from the claim.  From the initial state, with the
    model not yet loaded, a release of the Globe key is refused: the state
    stays Idle and the status is the waiting message, as claimed; but the
    toggle [is_recording_with_key63] has gone from off to on. *)
Theorem rejected_start_switches_toggle :
  model init_app = None /\
  state init_app = Idle /\
  is_recording_with_key63 init_app = false /\
  step (EvRelease fn_key) init_app = Some (after [EvRelease fn_key]) /\
  state (after [EvRelease fn_key]) = Idle /\
  status_item (after [EvRelease fn_key]) = "Status: Waiting for model to load" /\
  frames (after [EvRelease fn_key]) = frames init_app /\
  is_recording_with_key63 (after [EvRelease fn_key]) = true.
Proof. vm_compute. repeat split; reflexivity. Qed.

(** C2: the code departs from the claim.  After a release that came before
    the model had loaded, the controller is Idle and the model is loaded,
    yet the next release of the Globe key changes nothing: the state stays
    Idle, and so it does for the release after that. *)
Theorem release_after_early_release_ignored :
  run early_release init_app = Some (after early_release) /\
  state (after early_release) = Idle /\
  model (after early_release) = Some BaseModel /\
  callback_ready (after early_release) = true /\
  step (EvRelease fn_key) (after early_release) = Some (after early_release) /\
  run [EvRelease fn_key; EvRelease fn_key] (after early_release)
    = Some (after early_release) /\
  capture_threads (after early_release) = [] /\
  transcribe_threads (after early_release) = [].
Proof. vm_compute. repeat split; reflexivity. Qed.

(** ** C4: the microphone cannot be opened *)

(** C4, as amended.  [start_recording] has set the flag and the status
    before the capture thread tries the device.  When [audio.open] raises,
    that thread ends; the state stays Recording, the status stays
    [Recording...], and the buffer stays empty. *)
Theorem device_failure_leaves_recording a :
  model a <> None ->
  exists t a',
    recording_thread (start_recording a) = Some t /\
    capture_threads (start_recording a) !! t = Some CapOpen /\
    step (EvCapture t (CapOpened false)) (start_recording a) = Some a' /\
    capture_threads a' !! t = Some CapDead /\
    state a' = Recording /\
    status_item a' = "Status: Recording..." /\
    frames a' = [] /\
    (forall i, step (EvCapture t i) a' = None).
Proof.
  intros Hm. unfold start_recording. destruct (model a); [|done]. simpl.
  exists (length (capture_threads a)). eexists.
  rewrite lookup_app_r by done. rewrite Nat.sub_diag. simpl.
  split; [done|]. split; [done|]. split; [done|]. simpl.
  assert (Hl : <[length (capture_threads a) := CapDead]>
                 (capture_threads a ++ [CapOpen])
               !! length (capture_threads a) = Some CapDead).
  { apply list_lookup_insert_eq. rewrite length_app. simpl. lia. }
  rewrite Hl. repeat split; try done.
Qed.

Lemma device_failure_leaves_recording_witness :
  model (after load_ok) <> None /\
  exists t a',
    recording_thread (start_recording (after load_ok)) = Some t /\
    capture_threads (start_recording (after load_ok)) !! t = Some CapOpen /\
    step (EvCapture t (CapOpened false)) (start_recording (after load_ok)) = Some a' /\
    capture_threads a' !! t = Some CapDead /\
    state a' = Recording /\
    status_item a' = "Status: Recording..." /\
    frames a' = [] /\
    (forall i, step (EvCapture t i) a' = None).
Proof.
  assert (Hm : model (after load_ok) <> None) by (vm_compute; discriminate).
  split; [exact Hm|].
  exact (device_failure_leaves_recording (after load_ok) Hm).
Defined.

(** C4 fails as stated: when the device does not open the controller is in
    Recording, not Idle, and the status shows [Recording...], no error. *)
Lemma device_failure_not_idle :
  run no_device init_app = Some (after no_device) /\
  capture_threads (after no_device) = [CapDead] /\
  state (after no_device) = Recording /\
  recording (after no_device) = true /\
  status_item (after no_device) = "Status: Recording...".
Proof. vm_compute. repeat split; reflexivity. Qed.

(** ** C5: nothing was captured *)






(** ** C6: shutdown *)

(** C6, as amended.  On a signal, with the flag down, the audio device is
    released and the application told to quit, and no worker is started.
    With the flag up the handler first runs [stop_recording]: the flag is
    cleared and the handler waits for the capture thread, nothing else
    having happened yet; it goes on only when that thread has ended, and
    then starts the transcription worker for the captured frames, releases
    the audio device and tells the application to quit. *)
Theorem shutdown_stops_then_releases a :
  callback_ready a = true ->
  (recording a = false ->
   exists a', step EvSignal a = Some a' /\
     audio_terminated a' = true /\ quit a' = true /\
     transcribe_threads a' = transcribe_threads a) /\
  (recording a = true ->
   exists a1, step EvSignal a = Some a1 /\
     recording a1 = false /\ handler a1 = Joining KShutdown /\
     quit a1 = false /\ audio_terminated a1 = audio_terminated a /\
     transcribe_threads a1 = transcribe_threads a /\
     forall a2, handler a2 = Joining KShutdown ->
       (join_returns a2 = false -> step EvJoined a2 = None) /\
       (join_returns a2 = true ->
        exists a3, step EvJoined a2 = Some a3 /\
          transcribe_threads a3 = transcribe_threads a2 ++ [TrCheck] /\
          frames a3 = frames a2 /\
          audio_terminated a3 = true /\ quit a3 = true)).
Proof.
  intros Hready. simpl. rewrite Hready. unfold handle_shutdown.
  split; intros Hr; rewrite Hr.
  - eexists; split; done.
  - eexists; split; [done|]. simpl.
    unfold callback_ready in Hready.
    destruct (handler a); [|done]. apply negb_false_eq in Hready.
    repeat split; try done.
    + intros Hj. simpl. by rewrite H, Hj.
    + intros Hj. simpl. rewrite H, Hj. eexists; split; done.
Qed.

Lemma shutdown_stops_then_releases_witness :
  callback_ready (after recording_one_chunk) = true /\
  recording (after recording_one_chunk) = true /\
  exists a1, step EvSignal (after recording_one_chunk) = Some a1 /\
    recording a1 = false /\ handler a1 = Joining KShutdown /\
    quit a1 = false /\
    audio_terminated a1 = audio_terminated (after recording_one_chunk) /\
    transcribe_threads a1 = transcribe_threads (after recording_one_chunk) /\
    forall a2, handler a2 = Joining KShutdown ->
      (join_returns a2 = false -> step EvJoined a2 = None) /\
      (join_returns a2 = true ->
       exists a3, step EvJoined a2 = Some a3 /\
         transcribe_threads a3 = transcribe_threads a2 ++ [TrCheck] /\
         frames a3 = frames a2 /\
         audio_terminated a3 = true /\ quit a3 = true).
Proof.
  assert (H1 : callback_ready (after recording_one_chunk) = true)
    by (vm_compute; reflexivity).
  assert (H2 : recording (after recording_one_chunk) = true)
    by (vm_compute; reflexivity).
  exact (conj H1 (conj H2
    (proj2 (shutdown_stops_then_releases (after recording_one_chunk) H1) H2))).
Defined.

(** C6 fails as stated: a signal that arrives during a recording leaves a
    transcription worker started where there was none. *)
Lemma shutdown_starts_transcription :
  run shutdown_while_recording init_app = Some (after shutdown_while_recording) /\
  state (after recording_one_chunk) = Recording /\
  transcribe_threads (after recording_one_chunk) = [] /\
  transcribe_threads (after shutdown_while_recording) = [TrCheck] /\
  frames (after shutdown_while_recording) = [chunk1] /\
  audio_terminated (after shutdown_while_recording) = true /\
  quit (after shutdown_while_recording) = true.
Proof. vm_compute. repeat split; reflexivity. Qed.

(** ** C7: what becomes of the frames *)

Lemma effect_frames a a' :
  effect a a' ->
  frames a' = frames a \/
  (recording a = false /\ recording a' = true /\ frames a' = []).
Proof.
  intros [|Hr|Hr|k Hr|k Hr|Hr]; try (by left);
    unfold start_recording; destruct (model _); simpl; auto.
Qed.

(** C7, as amended.  No step of a transcription worker touches the frame
    buffer, so the captured audio is still in it when the transcription has
    completed or failed.  The buffer changes in two ways only: the capture
    loop appends a frame, or a callback starts the next recording, which
    replaces the buffer by an empty one. *)
Theorem frames_kept_until_next_start e a a' :
  step e a = Some a' ->
  (forall w i, e = EvWorker w i -> frames a' = frames a) /\
  (frames a' = frames a \/
   (exists t d, e = EvCapture t CapTick /\
      capture_threads a !! t = Some (CapAppend d) /\
      frames a' = frames a ++ [d]) \/
   (is_callback e = true /\ recording a = false /\ recording a' = true /\
    frames a' = [])).
Proof.
  intros Hs.
  destruct (is_callback e) eqn:Hcb.
  { destruct (callback_effect e a a' Hcb Hs) as (_ & _ & Heff).
    split; [intros w i ->; discriminate|].
    destruct (effect_frames a a' Heff) as [?|?]; auto. }
  destruct e; try discriminate Hcb; simpl in Hs.
  - destruct (handler a) as [|k]; [done|].
    destruct (join_returns a); [|done]. simplify_eq.
    split; [done|]. left.
    destruct k; simpl; try done.
    unfold on_release_special. by destruct (_ && _).
  - destruct (load_model i (load_model_thread a) a) as [[pc a1]|] eqn:Hl; [|done].
    simplify_eq. apply load_model_self in Hl as (_ & Hf & _).
    split; [done|]. by left.
  - destruct (capture_threads a !! t) as [pc|] eqn:Ht; [|done].
    destruct (record_audio i pc a) as [[pc' a1]|] eqn:Hc; [|done].
    simplify_eq. split; [done|].
    unfold record_audio in Hc.
    destruct pc, i as [|[]|[]]; simplify_eq; simpl; try (by left).
    right; left. by exists t, d.
  - destruct (transcribe_threads a !! w) as [pc|] eqn:Hw; [|done].
    destruct (process_recording i pc a) as [[pc' a1]|] eqn:Hp; [|done].
    simplify_eq. apply process_recording_self in Hp as (_ & Hf & _).
    split; [done|]. by left.
Qed.

Lemma frames_kept_until_next_start_witness :
  step (EvWorker 0 TrTick) (after one_recording)
    = Some (after (one_recording ++ [EvWorker 0 TrTick])) /\
  frames (after (one_recording ++ [EvWorker 0 TrTick]))
    = frames (after one_recording).
Proof.
  assert (H1 : step (EvWorker 0 TrTick) (after one_recording)
               = Some (after (one_recording ++ [EvWorker 0 TrTick])))
    by (vm_compute; reflexivity).
  exact (conj H1
    (proj1 (frames_kept_until_next_start _ _ _ H1) 0 TrTick eq_refl)).
Defined.

(** C7 fails as stated: when the transcription has completed, and just so
    when the engine has failed, the controller is back in Idle and the
    buffer still holds the captured frame. *)
Lemma frames_kept_after_transcription :
  run (one_session (Some ["hello"])) init_app
    = Some (after (one_session (Some ["hello"]))) /\
  state (after (one_session (Some ["hello"]))) = Idle /\
  frames (after (one_session (Some ["hello"]))) = [chunk1] /\
  run (one_session None) init_app = Some (after (one_session None)) /\
  state (after (one_session None)) = Idle /\
  frames (after (one_session None)) = [chunk1].
Proof. vm_compute. repeat split; reflexivity. Qed.

(** ** C9: the temporary wave file *)

Lemma files_inv_init : files_inv init_app.
Proof.
  split; simpl; intros *; rewrite lookup_nil; done.
Qed.

Lemma files_inv_ext a a' :
  transcribe_threads a' = transcribe_threads a ->
  tmp_files a' = tmp_files a -> files_inv a -> files_inv a'.
Proof. intros Hw Hf [H1 H2 H3]. split; rewrite ?Hw, ?Hf; done. Qed.

Lemma effect_files a a' :
  effect a a' ->
  transcribe_threads a' = transcribe_threads a /\ tmp_files a' = tmp_files a.
Proof.
  intros [|Hr|Hr|k Hr|k Hr|Hr]; try done;
    unfold start_recording; by destruct (model _).
Qed.

Lemma resume_files k a :
  transcribe_threads (resume k a) = transcribe_threads a /\
  tmp_files (resume k a) = tmp_files a.
Proof.
  destruct k; simpl; try done.
  unfold on_release_special. by destruct (_ && _).
Qed.

Lemma files_inv_spawn a a' :
  transcribe_threads a' = transcribe_threads a ++ [TrCheck] ->
  tmp_files a' = tmp_files a -> files_inv a -> files_inv a'.
Proof.
  intros Hw Hf [H1 H2 H3].
  assert (Hold : forall w pc n,
            (transcribe_threads a ++ [TrCheck]) !! w = Some pc ->
            tr_name pc = Some n -> transcribe_threads a !! w = Some pc).
  { intros w pc n Hl Hn. apply lookup_app_Some in Hl as [Hl|[_ Hl]]; [done|].
    apply list_lookup_singleton_Some in Hl as [_ <-]. done. }
  split; rewrite ?Hw, ?Hf.
  - intros w pc n Hl Hn. eapply H1; [|done]. by eapply Hold.
  - intros w pc n Hl Hn. eapply H2; [|done]. by eapply Hold.
  - intros w1 w2 pc1 pc2 n Hl1 Hl2 Hn1 Hn2.
    eapply (H3 w1 w2 pc1 pc2 n); eauto.
Qed.

(** One step of a worker, seen from the files. *)
Lemma process_recording_files i pc a pc' a' :
  process_recording i pc a = Some (pc', a') ->
  (tr_name pc = None /\ tr_name pc' = None /\ tmp_files a' = tmp_files a) \/
  (exists n, pc = TrTemp /\ pc' = TrWrite n /\ tmp_files a !! n = None /\
     tmp_files a' = <[n := EmptyFile]> (tmp_files a)) \/
  (exists n, pc = TrWrite n /\ pc' = TrEngine n /\
     tmp_files a' =
       <[n := WavFile channels sample_size rate (concat (frames a))]> (tmp_files a)) \/
  (exists n raised, pc = TrEngine n /\ pc' = TrFinally n raised /\
     tmp_files a' = tmp_files a) \/
  (exists n raised, pc = TrFinally n raised /\ pc' = TrDone /\
     tmp_files a' = delete n (tmp_files a)).
Proof.
  unfold process_recording. intros H.
  destruct pc, i; simplify_eq.
  - destruct (frames a); simplify_eq; left; done.
  - destruct (tmp_files a !! name) eqn:Hn; simplify_eq.
    right; left. by exists name.
  - right; right; left. by exists name.
  - right; right; right; left. exists name.
    destruct (model a); simpl in H; [|simplify_eq; by exists true; simpl].
    destruct r; [destruct (negb _)|]; simpl in H; simplify_eq;
      [by exists false; simpl..|by exists true; simpl].
  - right; right; right; right. exists name, raised.
    by destruct (raised || _).
Qed.

Lemma worker_step_inv w i a a' :
  files_inv a -> step (EvWorker w i) a = Some a' -> files_inv a'.
Proof.
  intros [H1 H2 H3] Hs. simpl in Hs.
  destruct (transcribe_threads a !! w) as [pc|] eqn:Hw; [|done].
  destruct (process_recording i pc a) as [[pc' a1]|] eqn:Hp; [|done].
  simplify_eq.
  pose proof Hp as (_ & _ & _ & _ & _ & Hws & _)%process_recording_self.
  assert (Hlen : w < length (transcribe_threads a)) by (by eapply lookup_lt_Some).
  assert (Hlk : forall w' pc'',
            <[w := pc']> (transcribe_threads a) !! w' = Some pc'' ->
            (w' = w /\ pc'' = pc') \/
            (w' <> w /\ transcribe_threads a !! w' = Some pc'')).
  { intros w' pc'' Hl. destruct (decide (w' = w)) as [->|Hne].
    - rewrite list_lookup_insert_eq in Hl by done. left. by simplify_eq.
    - rewrite list_lookup_insert_ne in Hl by done. by right. }
  (* what the step does to the files the other workers hold, and to its own *)
  assert (Hothers : forall w' pc'' m, w' <> w ->
            transcribe_threads a !! w' = Some pc'' -> tr_name pc'' = Some m ->
            tmp_files a1 !! m = tmp_files a !! m /\ tr_name pc' <> Some m).
  { intros w' pc'' m Hne Hl Hm.
    assert (Hpc : tr_name pc <> Some m).
    { intros Hpc. apply Hne. by eapply (H3 w' w). }
    destruct (H1 w' pc'' m Hl Hm) as [f Hf].
    apply process_recording_files in Hp
      as [(Hn & Hn' & ->)|[(n & -> & -> & Hfresh & ->)|[(n & -> & -> & ->)|
          [(n & r & -> & -> & ->)|(n & r & -> & -> & ->)]]]]; simpl in *.
    - split; [done|congruence].
    - assert (n <> m) by congruence.
      rewrite lookup_insert_ne by done. split; [done|congruence].
    - assert (n <> m) by congruence.
      rewrite lookup_insert_ne by done. split; [done|congruence].
    - split; [done|congruence].
    - assert (n <> m) by congruence.
      rewrite lookup_delete_ne by done. done. }
  assert (Hself : forall m, tr_name pc' = Some m ->
            is_Some (tmp_files a1 !! m) /\
            (tr_written pc' = true ->
             exists d, tmp_files a1 !! m = Some (WavFile channels sample_size rate d))).
  { intros m Hm.
    apply process_recording_files in Hp
      as [(Hn & Hn' & ->)|[(n & -> & -> & Hfresh & ->)|[(n & -> & -> & ->)|
          [(n & r & -> & -> & ->)|(n & r & -> & -> & ->)]]]];
      simpl in *; simplify_eq.
    - rewrite lookup_insert_eq. split; [eauto|done].
    - rewrite lookup_insert_eq. split; eauto.
    - split; [by eapply (H1 w)|intros _; by eapply (H2 w)]. }
  split; simpl; rewrite Hws.
  - intros w' pc'' m [[-> ->]|[Hne Hl]]%Hlk Hm.
    + by apply Hself.
    + destruct (Hothers w' pc'' m Hne Hl Hm) as [-> _]. eauto.
  - intros w' pc'' m [[-> ->]|[Hne Hl]]%Hlk Hm Hwr.
    + by apply Hself.
    + destruct (Hothers w' pc'' m Hne Hl Hm) as [-> _]. eauto.
  - intros w1 w2 pc1 pc2 m [[-> ->]|[Hne1 Hl1]]%Hlk [[-> ->]|[Hne2 Hl2]]%Hlk
      Hm1 Hm2; [done| | |by eapply (H3 w1 w2)].
    + by destruct (Hothers w2 pc2 m Hne2 Hl2 Hm2) as [_ ?].
    + by destruct (Hothers w1 pc1 m Hne1 Hl1 Hm1) as [_ ?].
Qed.

Lemma step_files_inv e a a' : files_inv a -> step e a = Some a' -> files_inv a'.
Proof.
  intros Hi Hs.
  destruct (is_callback e) eqn:Hcb.
  { destruct (callback_effect e a a' Hcb Hs) as (_ & _ & Heff).
    apply effect_files in Heff as [Hw Hf]. by eapply files_inv_ext. }
  destruct e; try discriminate Hcb; [| | |by eapply worker_step_inv];
    simpl in Hs.
  - destruct (handler a) as [|k]; [done|].
    destruct (join_returns a); [|done]. simplify_eq.
    destruct (resume_files k (set_handler Running (stop_recording_joined a)))
      as [Hw Hf].
    eapply files_inv_spawn; [| |done]; [by rewrite Hw|by rewrite Hf].
  - destruct (load_model i (load_model_thread a) a) as [[pc a1]|] eqn:Hl; [|done].
    simplify_eq. apply load_model_self in Hl as (_ & _ & _ & _ & _ & Hw & Hf & _).
    by eapply files_inv_ext.
  - destruct (capture_threads a !! t) as [pc|] eqn:Ht; [|done].
    destruct (record_audio i pc a) as [[pc' a1]|] eqn:Hc; [|done].
    simplify_eq. apply record_audio_self in Hc as (_ & _ & _ & _ & _ & Hw & Hf & _).
    by eapply files_inv_ext.
Qed.

Lemma reachable_files_inv a : reachable a -> files_inv a.
Proof.
  intros [es Hr]. revert Hr. generalize files_inv_init. generalize init_app.
  induction es as [|e es IH]; intros b Hb Hr; simpl in Hr.
  - by simplify_eq.
  - destruct (step e b) as [b1|] eqn:Hs; [|done].
    eapply IH; [|done]. by eapply step_files_inv.
Qed.



(** ** C10: the clipboard *)

(** C10.  [insert_text] puts the text on the clipboard, whatever was there,
    and sends Command+V; it puts nothing back.  And no other piece of the
    program writes the clipboard: a step that changes it is a worker's
    call of [insert_text] with the non-empty text the engine returned, and
    it leaves exactly that text. *)
Theorem inject_overwrites_clipboard text a :
  clipboard (insert_text text a) = text /\
  keystrokes (insert_text text a)
    = keystrokes a ++ [PressCmd; PressV; ReleaseV; ReleaseCmd] /\
  (forall e b b',
     step e b = Some b' -> clipboard b' <> clipboard b ->
     exists w n segments,
       e = EvWorker w (TrAnswer (Some segments)) /\
       transcribe_threads b !! w = Some (TrEngine n) /\
       is_empty (transcript segments) = false /\
       clipboard b' = transcript segments).
Proof.
  split; [done|]. split; [done|].
  intros e b b' Hs Hne.
  destruct (is_callback e) eqn:Hcb.
  { destruct (callback_effect e b b' Hcb Hs) as (_ & _ & Heff).
    exfalso. apply Hne.
    destruct Heff as [|Hr|Hr|k Hr|k Hr|Hr]; try done;
      unfold start_recording; by destruct (model _). }
  destruct e; try discriminate Hcb; simpl in Hs.
  - destruct (handler b) as [|k]; [done|].
    destruct (join_returns b); [|done]. simplify_eq.
    exfalso. apply Hne. destruct k; simpl; try done.
    unfold on_release_special. by destruct (_ && _).
  - destruct (load_model i (load_model_thread b) b) as [[pc b1]|] eqn:Hl; [|done].
    simplify_eq. apply load_model_self in Hl as (_ & _ & _ & _ & _ & _ & _ & Hc & _).
    done.
  - destruct (capture_threads b !! t) as [pc|] eqn:Ht; [|done].
    destruct (record_audio i pc b) as [[pc' b1]|] eqn:Hc; [|done].
    simplify_eq. exfalso. apply Hne. unfold record_audio in Hc.
    destruct pc, i as [|[]|[]]; by simplify_eq.
  - destruct (transcribe_threads b !! w) as [pc|] eqn:Hw; [|done].
    destruct (process_recording i pc b) as [[pc' b1]|] eqn:Hp; [|done].
    simplify_eq. simpl in Hne. unfold process_recording in Hp.
    destruct pc, i; simplify_eq; try (exfalso; apply Hne;
      repeat case_match; by simplify_eq).
    destruct (model b); [|by simplify_eq].
    destruct r as [segments|]; [|by simplify_eq].
    destruct (is_empty (transcript segments)) eqn:He; simpl in Hp; simplify_eq.
    by exists w, name, segments.
Qed.

Lemma inject_overwrites_clipboard_witness :
  step (EvWorker 0 (TrAnswer (Some ["hello"; " world"]))) (after before_engine)
    = Some (after (before_engine ++ [EvWorker 0 (TrAnswer (Some ["hello"; " world"]))])) /\
  clipboard (insert_text "hello world" copied_before) = "hello world" /\
  clipboard (after (before_engine ++ [EvWorker 0 (TrAnswer (Some ["hello"; " world"]))]))
    = "hello world".
Proof.
  assert (H1 : step (EvWorker 0 (TrAnswer (Some ["hello"; " world"])))
                 (after before_engine)
               = Some (after (before_engine
                   ++ [EvWorker 0 (TrAnswer (Some ["hello"; " world"]))])))
    by (vm_compute; reflexivity).
  assert (H2 : clipboard (after (before_engine
                 ++ [EvWorker 0 (TrAnswer (Some ["hello"; " world"]))]))
               <> clipboard (after before_engine)) by (vm_compute; discriminate).
  destruct (proj2 (proj2 (inject_overwrites_clipboard "hello world" copied_before))
              _ _ _ H1 H2) as (w & n & segments & He & _ & _ & Hc).
  refine (conj H1 (conj
    (proj1 (inject_overwrites_clipboard "hello world" copied_before)) _)).
  injection He as _ <-. exact Hc.
Defined.

(** * Further properties *)

(** ** Induction over the reachable states *)

Lemma run_snoc es e a :
  run (es ++ [e]) a = match run es a with Some b => step e b | None => None end.
Proof.
  revert a. induction es as [|e0 es IH]; intros a; simpl.
  - by destruct (step e a).
  - destruct (step e0 a); [apply IH|done].
Qed.

Lemma reachable_induction (P : App -> Prop) :
  P init_app ->
  (forall e a a', reachable a -> P a -> step e a = Some a' -> P a') ->
  forall a, reachable a -> P a.
Proof.
  intros Hinit Hstep a [es Hr]. revert a Hr.
  induction es as [|e es IH] using rev_ind; intros a Hr.
  - simpl in Hr. by simplify_eq.
  - rewrite run_snoc in Hr.
    destruct (run es init_app) as [b|] eqn:Hb; [|done].
    eapply Hstep; [by exists es|by apply IH|done].
Qed.

(** ** What a step of a thread leaves alone *)

Lemma capture_step_keeps t i a a' :
  step (EvCapture t i) a = Some a' ->
  recording a' = recording a /\
  is_recording_with_key63 a' = is_recording_with_key63 a /\
  model a' = model a /\ handler a' = handler a /\ quit a' = quit a /\
  audio_terminated a' = audio_terminated a /\
  load_model_thread a' = load_model_thread a /\
  transcribe_threads a' = transcribe_threads a /\
  engine_calls a' = engine_calls a /\ keystrokes a' = keystrokes a /\
  title a' = title a /\ status_item a' = status_item a /\
  length (capture_threads a') = length (capture_threads a).
Proof.
  simpl. intros Hs.
  destruct (capture_threads a !! t) as [pc|]; [|done].
  unfold record_audio in Hs.
  destruct pc, i as [|[]|[]]; simplify_eq; simpl; rewrite ?length_insert; done.
Qed.

Lemma worker_step_keeps w i a a' :
  step (EvWorker w i) a = Some a' ->
  recording a' = recording a /\
  is_recording_with_key63 a' = is_recording_with_key63 a /\
  model a' = model a /\ handler a' = handler a /\ quit a' = quit a /\
  audio_terminated a' = audio_terminated a /\
  load_model_thread a' = load_model_thread a /\
  capture_threads a' = capture_threads a /\
  recording_thread a' = recording_thread a /\ frames a' = frames a /\
  length (transcribe_threads a') = length (transcribe_threads a).
Proof.
  simpl. intros Hs.
  destruct (transcribe_threads a !! w) as [pc|]; [|done].
  destruct (process_recording i pc a) as [[pc' a1]|] eqn:Hp; [|done].
  simplify_eq. simpl. rewrite length_insert.
  unfold process_recording in Hp.
  destruct pc, i; simplify_eq; repeat case_match; simplify_eq; simpl; done.
Qed.

Lemma loader_step_keeps i a a' :
  step (EvLoader i) a = Some a' ->
  recording a' = recording a /\
  is_recording_with_key63 a' = is_recording_with_key63 a /\
  handler a' = handler a /\ quit a' = quit a /\
  audio_terminated a' = audio_terminated a /\
  capture_threads a' = capture_threads a /\
  transcribe_threads a' = transcribe_threads a /\
  recording_thread a' = recording_thread a /\ frames a' = frames a /\
  engine_calls a' = engine_calls a /\ keystrokes a' = keystrokes a /\
  load_model_thread a <> LoadDone /\
  (model a' = model a \/
   (load_model_thread a = Loading /\ model a' = Some BaseModel)) /\
  (is_Some (model a') -> load_model_thread a' = LoadDone \/ is_Some (model a)).
Proof.
  simpl. intros Hs. unfold load_model in Hs.
  destruct (load_model_thread a), i as [|[]]; simplify_eq; simpl;
    repeat split; auto; done.
Qed.

Lemma joined_step_keeps a a' :
  step EvJoined a = Some a' ->
  joining a = true /\ join_returns a = true /\
  model a' = model a /\ load_model_thread a' = load_model_thread a /\
  is_recording_with_key63 a' = is_recording_with_key63 a /\
  capture_threads a' = capture_threads a /\ frames a' = frames a /\
  recording_thread a' = recording_thread a /\
  engine_calls a' = engine_calls a /\ keystrokes a' = keystrokes a /\
  transcribe_threads a' = transcribe_threads a ++ [TrCheck].
Proof.
  simpl. unfold joining. intros Hs.
  destruct (handler a) as [|k]; [done|].
  destruct (join_returns a); [|done]. simplify_eq.
  destruct k; simpl; try done.
  unfold on_release_special. by destruct (_ && _).
Qed.

Lemma effect_keeps a a' :
  effect a a' ->
  model a' = model a /\ load_model_thread a' = load_model_thread a /\
  transcribe_threads a' = transcribe_threads a /\
  engine_calls a' = engine_calls a /\ keystrokes a' = keystrokes a /\
  tmp_files a' = tmp_files a /\ clipboard a' = clipboard a.
Proof.
  intros [|Hr|Hr|k Hr|k Hr|Hr]; try done;
    unfold start_recording; simpl; destruct (model a) eqn:Hm; simpl; done.
Qed.

(** ** The model *)

Lemma session_begun_ext a a' :
  recording a' = recording a -> handler a' = handler a ->
  length (capture_threads a') = length (capture_threads a) ->
  length (transcribe_threads a') = length (transcribe_threads a) ->
  session_begun a' -> session_begun a.
Proof.
  unfold session_begun, joining. intros -> -> Hc Hw [?|[?|[Hn|Hn]]]; auto.
  - right; right; left. intros He. apply Hn.
    rewrite He in Hc. by apply nil_length_inv.
  - right; right; right. intros He. apply Hn.
    rewrite He in Hw. by apply nil_length_inv.
Qed.

Lemma model_inv_init : model_inv init_app.
Proof.
  split.
  - intros [?|[?|[?|?]]]; done.
  - intros [? ?]; done.
Qed.

Lemma model_inv_step e a a' :
  model_inv a -> step e a = Some a' -> model_inv a'.
Proof.
  intros [Hm Hl] Hs.
  destruct (is_callback e) eqn:Hcb.
  { destruct (callback_effect e a a' Hcb Hs) as (Hh & _ & Heff).
    destruct (effect_keeps a a' Heff) as (Hmod & Hld & _).
    split; [|by rewrite Hmod, Hld].
    rewrite Hmod. intros Hb.
    destruct Heff as [|Hr|Hr|k Hr|k Hr|Hr].
    - by apply Hm.
    - unfold start_recording in *. destruct (model a) eqn:Hma; [eauto|].
      apply Hm. unfold session_begun, joining in *. simpl in Hb. done.
    - unfold start_recording in *. simpl in *. destruct (model a) eqn:Hma; [eauto|].
      apply Hm. unfold session_begun, joining in *. simpl in Hb. done.
    - apply Hm. by left.
    - apply Hm. by left.
    - apply Hm. unfold session_begun, joining in *. simpl in Hb. done. }
  destruct e; try discriminate Hcb.
  - apply joined_step_keeps in Hs as (Hj & _ & Hmod & Hld & _).
    split; rewrite Hmod, ?Hld; [|done]. intros _. apply Hm. right; by left.
  - apply loader_step_keeps in Hs
      as (Hr & _ & Hh & _ & _ & Hc & Hw & _ & _ & _ & _ & Hnd & Hmod & Hdone).
    split.
    + intros Hb. destruct Hmod as [->|[_ ->]]; [|eauto].
      apply Hm. eapply session_begun_ext; [..|done]; congruence.
    + intros Hs'. destruct (Hdone Hs') as [?|Hsome]; [done|].
      by apply Hl in Hsome.
  - apply capture_step_keeps in Hs
      as (Hr & _ & Hmod & Hh & _ & _ & Hld & Hw & _ & _ & _ & _ & Hc).
    split; rewrite Hmod, ?Hld; [|done].
    intros Hb. apply Hm. eapply session_begun_ext; [..|done]; congruence.
  - apply worker_step_keeps in Hs
      as (Hr & _ & Hmod & Hh & _ & _ & Hld & Hc & _ & _ & Hw).
    split; rewrite Hmod, ?Hld; [|done].
    intros Hb. apply Hm. eapply session_begun_ext; [..|done]; congruence.
Qed.

Lemma reachable_model_inv a : reachable a -> model_inv a.
Proof.
  apply reachable_induction; [apply model_inv_init|].
  intros e b b' _. apply model_inv_step.
Qed.

Lemma model_missing_step e a a' :
  model_missing a -> step e a = Some a' -> model_missing a'.
Proof.
  intros [Hm Hl Hr Hh Hc Hw Hcalls] Hs.
  destruct (is_callback e) eqn:Hcb.
  { destruct (callback_effect e a a' Hcb Hs) as (_ & _ & Heff).
    destruct Heff as [|_|_|k Hr'|k Hr'|_]; try congruence.
    - done.
    - unfold start_recording. rewrite Hm. by split.
    - unfold start_recording. simpl. rewrite Hm. by split.
    - by split. }
  destruct e; try discriminate Hcb.
  - apply joined_step_keeps in Hs as [Hj _]. unfold joining in Hj.
    by rewrite Hh in Hj.
  - by apply loader_step_keeps in Hs
      as (_ & _ & _ & _ & _ & _ & _ & _ & _ & _ & _ & Hnd & _).
  - simpl in Hs. by rewrite Hc, lookup_nil in Hs.
  - simpl in Hs. by rewrite Hw, lookup_nil in Hs.
Qed.

Lemma reachable_engine_calls a :
  reachable a -> transcribe_threads a = [] -> engine_calls a = [].
Proof.
  intros Hreach. induction Hreach as [|e b b' _ IH Hs] using reachable_induction;
    [done|].
  intros Hw. destruct (is_callback e) eqn:Hcb.
  { destruct (callback_effect e b b' Hcb Hs) as (_ & _ & Heff).
    apply effect_keeps in Heff as (_ & _ & Hw' & Hc & _).
    rewrite Hc. apply IH. congruence. }
  destruct e; try discriminate Hcb.
  - apply joined_step_keeps in Hs as (_ & _ & _ & _ & _ & _ & _ & _ & _ & _ & Hw').
    rewrite Hw' in Hw. by destruct (transcribe_threads b).
  - apply loader_step_keeps in Hs
      as (_ & _ & _ & _ & _ & _ & Hw' & _ & _ & Hc & _).
    rewrite Hc. apply IH. congruence.
  - apply capture_step_keeps in Hs
      as (_ & _ & _ & _ & _ & _ & _ & Hw' & Hc & _).
    rewrite Hc. apply IH. congruence.
  - pose proof Hs as (_ & _ & _ & _ & _ & _ & _ & _ & _ & _ & Hlen)%worker_step_keeps.
    rewrite Hw in Hlen. simpl in Hs.
    destruct (transcribe_threads b) eqn:Hb; [|done].
    by rewrite lookup_nil in Hs.
Qed.

(** ** The model failed to load *)

(** Once [load_model] has failed, the model stays missing and there is no
    second attempt: whatever keys, menu items and signals follow, every start
    is refused, no capture thread and no worker is ever started, the engine
    is never called, and the controller stays Idle. *)
Theorem failed_load_never_records a es a' :
  reachable a -> model a = None -> load_model_thread a = LoadDone ->
  run es a = Some a' ->
  model a' = None /\ load_model_thread a' = LoadDone /\ state a' = Idle /\
  capture_threads a' = [] /\ transcribe_threads a' = [] /\
  engine_calls a' = [].
Proof.
  intros Hreach Hm Hl Hrun.
  assert (Hmiss : model_missing a).
  { destruct (reachable_model_inv a Hreach) as [Hb _].
    assert (Hnot : ~ session_begun a).
    { intros [? ?]%Hb. congruence. }
    unfold session_begun, joining in Hnot.
    assert (Hw : transcribe_threads a = []).
    { destruct (transcribe_threads a); [done|]. exfalso. apply Hnot. auto. }
    split; try done.
    - destruct (recording a); [|done]. exfalso. apply Hnot. auto.
    - destruct (handler a); [done|]. exfalso. apply Hnot. auto.
    - destruct (capture_threads a); [done|]. exfalso. apply Hnot. auto.
    - by apply reachable_engine_calls. }
  clear Hreach Hm Hl.
  assert (Hmiss' : model_missing a').
  { revert a Hmiss Hrun. induction es as [|e es IH]; intros a Hmiss Hrun;
      simpl in Hrun.
    - by simplify_eq.
    - destruct (step e a) as [b|] eqn:Hs; [|done].
      eapply IH; [|done]. by eapply model_missing_step. }
  destruct Hmiss' as [? ? Hr Hh ? Hw ?].
  repeat split; try done.
  unfold state, joining. by rewrite Hr, Hh, Hw.
Qed.

Lemma failed_load_never_records_witness :
  reachable (after load_failed) /\
  model (after load_failed) = None /\
  load_model_thread (after load_failed) = LoadDone /\
  run keys_after_failed_load (after load_failed)
    = Some (after (load_failed ++ keys_after_failed_load)) /\
  state (after (load_failed ++ keys_after_failed_load)) = Idle /\
  capture_threads (after (load_failed ++ keys_after_failed_load)) = [].
Proof.
  assert (H1 : reachable (after load_failed)).
  { exists load_failed. vm_compute. reflexivity. }
  assert (H2 : model (after load_failed) = None) by (vm_compute; reflexivity).
  assert (H3 : load_model_thread (after load_failed) = LoadDone)
    by (vm_compute; reflexivity).
  assert (H4 : run keys_after_failed_load (after load_failed)
               = Some (after (load_failed ++ keys_after_failed_load)))
    by (vm_compute; reflexivity).
  pose proof (failed_load_never_records _ _ _ H1 H2 H3 H4)
    as (_ & _ & H5 & H6 & _).
  exact (conj H1 (conj H2 (conj H3 (conj H4 (conj H5 H6))))).
Defined.

(** ** The engine *)

Lemma worker_step_calls w i a a' :
  step (EvWorker w i) a = Some a' ->
  exists pc pc',
    transcribe_threads a !! w = Some pc /\
    transcribe_threads a' = <[w := pc']> (transcribe_threads a) /\
    tr_called pc <= tr_called pc' /\
    (engine_calls a' = engine_calls a \/
     (exists n, pc = TrEngine n /\ pc' <> TrEngine n /\ tr_called pc' = 1 /\
        is_Some (model a) /\
        engine_calls a' = engine_calls a ++ [(n, tmp_files a !! n)])).
Proof.
  simpl. intros Hs.
  destruct (transcribe_threads a !! w) as [pc|] eqn:Hw; [|done].
  destruct (process_recording i pc a) as [[pc' a1]|] eqn:Hp; [|done].
  simplify_eq. exists pc, pc'. split; [done|].
  unfold process_recording in Hp.
  destruct pc, i; simplify_eq; repeat case_match; simplify_eq; simpl;
    (split; [done|]); (split; [lia|]); try (left; done);
    right; eexists; eauto 10.
Qed.

(** The engine is only ever called with the model loaded and on a complete
    wave file in the recording format (mono, 16 bit, 16 kHz): this holds of
    every call made so far, and a worker's call of the engine makes exactly
    one call, on the file that worker has written. *)
Theorem engine_sees_complete_files a :
  reachable a ->
  Forall complete_call (engine_calls a) /\
  (forall w n r a',
     transcribe_threads a !! w = Some (TrEngine n) ->
     step (EvWorker w (TrAnswer r)) a = Some a' ->
     is_Some (model a) /\
     exists d, tmp_files a !! n = Some (WavFile channels sample_size rate d) /\
       engine_calls a'
       = engine_calls a ++ [(n, Some (WavFile channels sample_size rate d))]).
Proof.
  intros Hreach.
  assert (Hcall : forall b, reachable b -> forall w n r b',
            transcribe_threads b !! w = Some (TrEngine n) ->
            step (EvWorker w (TrAnswer r)) b = Some b' ->
            is_Some (model b) /\
            exists d, tmp_files b !! n = Some (WavFile channels sample_size rate d) /\
              engine_calls b'
              = engine_calls b ++ [(n, Some (WavFile channels sample_size rate d))]).
  { intros b Hb w n r b' Hw Hs.
    destruct (reachable_model_inv b Hb) as [Hm _].
    destruct (reachable_files_inv b Hb) as [_ H2 _].
    assert (Hsome : is_Some (model b)).
    { apply Hm. right; right; right. intros He. by rewrite He, lookup_nil in Hw. }
    split; [done|].
    destruct (H2 w _ n Hw eq_refl eq_refl) as [d Hd]. exists d. split; [done|].
    simpl in Hs. rewrite Hw in Hs. simpl in Hs.
    destruct Hsome as [m Hmod]. rewrite Hmod in Hs.
    destruct r as [segments|]; [destruct (negb _)|]; simplify_eq; simpl;
      by rewrite Hd. }
  split; [|by apply Hcall].
  induction Hreach as [|e b b' Hb IH Hs] using reachable_induction.
  { constructor. }
  destruct (is_callback e) eqn:Hcb.
  { destruct (callback_effect e b b' Hcb Hs) as (_ & _ & Heff).
    apply effect_keeps in Heff as (_ & _ & _ & Hc & _). by rewrite Hc. }
  destruct e; try discriminate Hcb.
  - apply joined_step_keeps in Hs as (_ & _ & _ & _ & _ & _ & _ & _ & Hc & _).
    by rewrite Hc.
  - apply loader_step_keeps in Hs as (_ & _ & _ & _ & _ & _ & _ & _ & _ & Hc & _).
    by rewrite Hc.
  - apply capture_step_keeps in Hs as (_ & _ & _ & _ & _ & _ & _ & _ & Hc & _).
    by rewrite Hc.
  - pose proof Hs as (pc & pc' & Hw & _ & _ & [Hc|(n & -> & _ & _ & _ & Hc)])
      %worker_step_calls.
    + by rewrite Hc.
    + destruct i as [| |r]; try (simpl in Hs; rewrite Hw in Hs; done).
      destruct (Hcall b Hb w n r b' Hw Hs) as (_ & d & _ & Hc').
      rewrite Hc'. apply Forall_app. split; [done|].
      constructor; [|constructor]. by exists d.
Qed.

Lemma engine_sees_complete_files_witness :
  reachable (after (one_session (Some ["hello"]))) /\
  Forall complete_call (engine_calls (after (one_session (Some ["hello"])))).
Proof.
  assert (H1 : reachable (after (one_session (Some ["hello"])))).
  { exists (one_session (Some ["hello"])). vm_compute. reflexivity. }
  exact (conj H1 (proj1 (engine_sees_complete_files _ H1))).
Defined.

Lemma sum_called_insert (ws : list tr_pc) w pc pc' :
  ws !! w = Some pc ->
  sum_list_with tr_called (<[w := pc']> ws) + tr_called pc
  = sum_list_with tr_called ws + tr_called pc'.
Proof.
  revert w. induction ws as [|x ws IH]; intros [|w] Hw; simpl in *; try done.
  - simplify_eq. lia.
  - specialize (IH w Hw). lia.
Qed.

Lemma sum_called_le (ws : list tr_pc) :
  sum_list_with tr_called ws <= length ws.
Proof.
  induction ws as [|x ws IH]; simpl; [done|]. destruct x; simpl; lia.
Qed.

(** There is a single attempt per transcription: the engine has been called
    at most once for each worker that has got past its engine call, and so
    at most once for each worker ever started. *)
Theorem engine_called_once_per_worker a :
  reachable a ->
  length (engine_calls a) <= sum_list_with tr_called (transcribe_threads a) /\
  length (engine_calls a) <= length (transcribe_threads a).
Proof.
  intros Hreach.
  assert (H : length (engine_calls a)
              <= sum_list_with tr_called (transcribe_threads a)).
  { induction Hreach as [|e b b' Hb IH Hs] using reachable_induction; [done|].
    destruct (is_callback e) eqn:Hcb.
    { destruct (callback_effect e b b' Hcb Hs) as (_ & _ & Heff).
      apply effect_keeps in Heff as (_ & _ & Hw & Hc & _). by rewrite Hw, Hc. }
    destruct e; try discriminate Hcb.
    - apply joined_step_keeps in Hs as (_ & _ & _ & _ & _ & _ & _ & _ & Hc & _ & Hw).
      rewrite Hc, Hw, sum_list_with_app. simpl. lia.
    - apply loader_step_keeps in Hs
        as (_ & _ & _ & _ & _ & _ & Hw & _ & _ & Hc & _).
      by rewrite Hw, Hc.
    - apply capture_step_keeps in Hs
        as (_ & _ & _ & _ & _ & _ & _ & Hw & Hc & _).
      by rewrite Hw, Hc.
    - apply worker_step_calls in Hs
        as (pc & pc' & Hw & Hws & Hle & [Hc|(n & -> & _ & Hone & _ & Hc)]);
        pose proof (sum_called_insert _ w _ pc' Hw) as Hsum; rewrite Hws, Hc.
      + lia.
      + rewrite length_app. simpl in *. lia. }
  split; [done|]. etrans; [done|]. apply sum_called_le.
Qed.

(** ** The text *)

Lemma append_cons c (s t : string) : String c s +:+ t = String c (s +:+ t).
Proof. reflexivity. Qed.

Lemma append_empty_r (s : string) : s +:+ "" = s.
Proof. induction s as [|c s IH]; [done|]. by rewrite append_cons, IH. Qed.

Lemma append_assoc (s1 s2 s3 : string) :
  (s1 +:+ s2) +:+ s3 = s1 +:+ (s2 +:+ s3).
Proof.
  induction s1 as [|c s1 IH]; [done|]. by rewrite !append_cons, IH.
Qed.

Lemma append_length (s1 s2 : string) :
  String.length (s1 +:+ s2) = String.length s1 + String.length s2.
Proof.
  induction s1 as [|c s1 IH]; [done|]. rewrite append_cons. simpl.
  by rewrite IH.
Qed.

Lemma fold_append (segments : list string) (acc : string) :
  fold_left (fun text s => text +:+ s) segments acc
  = acc +:+ transcript segments.
Proof.
  unfold transcript. revert acc.
  induction segments as [|s segments IH]; intros acc; simpl.
  - by rewrite append_empty_r.
  - rewrite IH, (IH ("" +:+ s)). by rewrite append_assoc.
Qed.

Lemma transcript_cons s segments :
  transcript (s :: segments) = s +:+ transcript segments.
Proof. unfold transcript at 1. simpl. apply fold_append. Qed.

Lemma is_empty_append s1 s2 :
  is_empty (s1 +:+ s2) = is_empty s1 && is_empty s2.
Proof. by destruct s1. Qed.

Lemma transcript_empty segments :
  is_empty (transcript segments) = forallb is_empty segments.
Proof.
  induction segments as [|s segments IH]; [done|].
  by rewrite transcript_cons, is_empty_append, IH.
Qed.

(** The text is the segments' texts joined in the order the engine gave
    them, with nothing in between.  If every segment is empty (or there is
    none) nothing is pasted, the clipboard is left alone and the status is
    [No speech detected]; otherwise the text goes to the clipboard, one
    Command+V is sent and the status shows the text. *)
Theorem segments_joined_in_order w n segments a :
  transcribe_threads a !! w = Some (TrEngine n) -> is_Some (model a) ->
  (forall s1 s2, transcript (s1 ++ s2) = transcript s1 +:+ transcript s2) /\
  exists a', step (EvWorker w (TrAnswer (Some segments))) a = Some a' /\
    transcribe_threads a' !! w = Some (TrFinally n false) /\
    (forallb is_empty segments = true ->
     status_item a' = "Status: No speech detected" /\
     clipboard a' = clipboard a /\ keystrokes a' = keystrokes a) /\
    (forallb is_empty segments = false ->
     status_item a' = transcribed_status (transcript segments) /\
     clipboard a' = transcript segments /\
     keystrokes a' = keystrokes a ++ paste_combo).
Proof.
  intros Hw [m Hm]. split.
  { intros s1 s2. induction s1 as [|s s1 IH]; simpl; [done|].
    by rewrite !transcript_cons, IH, append_assoc. }
  assert (Hlen : w < length (transcribe_threads a)) by (by eapply lookup_lt_Some).
  simpl. rewrite Hw. simpl. rewrite Hm, transcript_empty.
  destruct (forallb is_empty segments); simpl;
    (eexists; split; [reflexivity|]); simpl;
    rewrite list_lookup_insert_eq by done; done.
Qed.

Lemma segments_joined_in_order_witness :
  transcribe_threads (after before_engine) !! 0 = Some (TrEngine "tmp0.wav") /\
  is_Some (model (after before_engine)) /\
  transcript (["a"; "b"] ++ ["c"]) = transcript ["a"; "b"] +:+ transcript ["c"].
Proof.
  assert (H1 : transcribe_threads (after before_engine) !! 0
               = Some (TrEngine "tmp0.wav")) by (vm_compute; reflexivity).
  assert (H2 : is_Some (model (after before_engine)))
    by (vm_compute; eexists; reflexivity).
  exact (conj H1 (conj H2
    (proj1 (segments_joined_in_order 0 "tmp0.wav" [] _ H1 H2) ["a"; "b"] ["c"]))).
Defined.

Lemma substring_length (m : nat) (s : string) :
  String.length (String.substring 0 m s) = m `min` String.length s.
Proof.
  revert s. induction m as [|m IH]; intros [|c s]; simpl; try done.
  by rewrite IH.
Qed.

Lemma substring_all (m : nat) (s : string) :
  String.length s <= m -> String.substring 0 m s = s.
Proof.
  revert s. induction m as [|m IH]; intros [|c s] Hl; simpl in *;
    try done; try lia.
  rewrite IH; [done|lia].
Qed.

(** The status after a transcription shows at most the first 30 characters
    of the text, between [Status: Transcribed: ] and [...]: it is never
    longer than 54 characters, and a text of up to 30 characters is shown
    whole. *)
Theorem transcribed_status_bounded text :
  String.length (transcribed_status text)
  = 24 + (30 `min` String.length text) /\
  String.length (transcribed_status text) <= 54 /\
  (String.length text <= 30 ->
   transcribed_status text = "Status: Transcribed: " +:+ text +:+ "...").
Proof.
  unfold transcribed_status.
  assert (Hl : String.length
                 ("Status: Transcribed: " +:+ String.substring 0 30 text +:+ "...")
               = 24 + (30 `min` String.length text)).
  { rewrite !append_length, substring_length. simpl. lia. }
  split; [done|]. split; [lia|].
  intros Hle. by rewrite substring_all.
Qed.

Lemma transcribed_status_bounded_witness :
  String.length "hello world" <= 30 /\
  transcribed_status "hello world" = "Status: Transcribed: hello world...".
Proof.
  assert (H : String.length "hello world" <= 30) by (simpl; lia).
  exact (conj H (proj2 (proj2 (transcribed_status_bounded "hello world")) H)).
Defined.

Lemma engine_called_once_per_worker_witness :
  reachable (after (one_session (Some ["hello"]))) /\
  length (engine_calls (after (one_session (Some ["hello"]))))
  <= length (transcribe_threads (after (one_session (Some ["hello"])))).
Proof.
  assert (H1 : reachable (after (one_session (Some ["hello"])))).
  { exists (one_session (Some ["hello"])). vm_compute. reflexivity. }
  exact (conj H1 (proj2 (engine_called_once_per_worker _ H1))).
Defined.

(** ** The threads come to an end *)

(** Once the flag is down the capture loop is on its way out: each of its
    steps brings it nearer to its end (at most five steps, whatever the
    device answers), a thread that has not ended can always take a step, and
    a frame is appended only by a thread that had a read in flight, which
    then goes back to the loop's test. *)
Theorem capture_loop_winds_down a t pc :
  capture_threads a !! t = Some pc -> recording a = false ->
  cap_rank pc <= 5 /\
  (cap_ended pc = false -> exists i a', step (EvCapture t i) a = Some a') /\
  (forall i a', step (EvCapture t i) a = Some a' ->
     exists pc', capture_threads a' !! t = Some pc' /\
       cap_rank pc' < cap_rank pc /\ recording a' = false /\
       (frames a' = frames a \/
        exists d, pc = CapAppend d /\ pc' = CapTest /\
          frames a' = frames a ++ [d])).
Proof.
  intros Ht Hr.
  assert (Hlen : t < length (capture_threads a)) by (by eapply lookup_lt_Some).
  split; [destruct pc; simpl; lia|]. split.
  - intros He. simpl. rewrite Ht.
    destruct pc; try done.
    + exists (CapOpened true). by eexists.
    + exists CapTick. by eexists.
    + exists (CapGot None). by eexists.
    + exists CapTick. by eexists.
    + exists CapTick. by eexists.
  - intros i a' Hs. simpl in Hs. rewrite Ht in Hs. unfold record_audio in Hs.
    destruct pc, i as [|[]|[]]; simplify_eq; simpl;
      rewrite ?Hr; (eexists; split;
        [by apply list_lookup_insert_eq|]); simpl;
      (split; [lia|]); (split; [done|]); eauto.
Qed.

Lemma capture_loop_winds_down_witness :
  capture_threads (after (recording_one_chunk ++ [EvRelease fn_key])) !! 0
    = Some CapTest /\
  recording (after (recording_one_chunk ++ [EvRelease fn_key])) = false /\
  cap_rank CapTest <= 5.
Proof.
  assert (H1 : capture_threads
                 (after (recording_one_chunk ++ [EvRelease fn_key])) !! 0
               = Some CapTest) by (vm_compute; reflexivity).
  assert (H2 : recording (after (recording_one_chunk ++ [EvRelease fn_key]))
               = false) by (vm_compute; reflexivity).
  exact (conj H1 (conj H2 (proj1 (capture_loop_winds_down _ 0 _ H1 H2)))).
Defined.

(** A transcription worker runs to completion or failure: each of its steps
    brings it nearer to its end (at most five steps), a worker that has not
    returned can always take a step (given, for the temporary file, a name
    that is free), and the step with which it returns resets the title to
    the plain microphone, whatever happened before. *)
Theorem worker_runs_to_its_end a w pc :
  transcribe_threads a !! w = Some pc ->
  tr_rank pc <= 5 /\
  (pc <> TrDone ->
   forall n, tmp_files a !! n = None ->
   exists i a', step (EvWorker w i) a = Some a') /\
  (forall i a', step (EvWorker w i) a = Some a' ->
     exists pc', transcribe_threads a' !! w = Some pc' /\
       tr_rank pc' < tr_rank pc /\
       (pc' = TrDone -> title a' = "🎙️")).
Proof.
  intros Hw.
  assert (Hlen : w < length (transcribe_threads a)) by (by eapply lookup_lt_Some).
  split; [destruct pc; simpl; lia|]. split.
  - intros Hne n Hn. simpl. rewrite Hw. destruct pc; try done.
    + exists TrTick. simpl. destruct (frames a); by eexists.
    + exists (TrNamed n). simpl. rewrite Hn. by eexists.
    + exists TrTick. by eexists.
    + exists (TrAnswer None). simpl. destruct (model a); by eexists.
    + exists TrTick. by eexists.
  - intros i a' Hs. simpl in Hs. rewrite Hw in Hs.
    destruct (process_recording i pc a) as [[pc' a1]|] eqn:Hp; [|done].
    simplify_eq. exists pc'. simpl.
    pose proof Hp as (_ & _ & _ & _ & _ & Hws & _)%process_recording_self.
    rewrite Hws. split; [by apply list_lookup_insert_eq|].
    unfold process_recording in Hp.
    destruct pc, i; simplify_eq; repeat case_match; simplify_eq; simpl;
      (split; [lia|]); done.
Qed.

Lemma worker_runs_to_its_end_witness :
  transcribe_threads (after before_engine) !! 0 = Some (TrEngine "tmp0.wav") /\
  tr_rank (TrEngine "tmp0.wav") <= 5.
Proof.
  assert (H1 : transcribe_threads (after before_engine) !! 0
               = Some (TrEngine "tmp0.wav")) by (vm_compute; reflexivity).
  exact (conj H1 (proj1 (worker_runs_to_its_end _ 0 _ H1))).
Defined.

(** In a reachable state the worker's [finally] always finds its temporary
    file, so the clean-up itself never fails: after a transcription without
    exception it removes the file, resets the title and leaves the status as
    it is; after an exception the status ends as
    [Error during transcription]. *)
Theorem cleanup_keeps_status a w n raised :
  reachable a -> transcribe_threads a !! w = Some (TrFinally n raised) ->
  is_Some (tmp_files a !! n) /\
  exists a', step (EvWorker w TrTick) a = Some a' /\
    transcribe_threads a' !! w = Some TrDone /\
    tmp_files a' = delete n (tmp_files a) /\
    title a' = "🎙️" /\
    status_item a'
    = if raised then "Status: Error during transcription" else status_item a.
Proof.
  intros Hreach Hw.
  destruct (reachable_files_inv a Hreach) as [H1 _ _].
  pose proof (H1 w _ n Hw eq_refl) as Hsome. split; [done|].
  assert (Hlen : w < length (transcribe_threads a)) by (by eapply lookup_lt_Some).
  assert (Hgone : bool_decide (tmp_files a !! n = None) = false).
  { apply bool_decide_eq_false. by destruct Hsome as [f ->]. }
  simpl. rewrite Hw. simpl. rewrite Hgone, orb_false_r.
  eexists; split; [reflexivity|].
  destruct raised; simpl; rewrite list_lookup_insert_eq by done; done.
Qed.

Lemma cleanup_keeps_status_witness :
  reachable (after (before_engine ++ [EvWorker 0 (TrAnswer None)])) /\
  transcribe_threads (after (before_engine ++ [EvWorker 0 (TrAnswer None)])) !! 0
    = Some (TrFinally "tmp0.wav" true) /\
  is_Some (tmp_files (after (before_engine ++ [EvWorker 0 (TrAnswer None)]))
             !! "tmp0.wav").
Proof.
  assert (H1 : reachable (after (before_engine ++ [EvWorker 0 (TrAnswer None)]))).
  { exists (before_engine ++ [EvWorker 0 (TrAnswer None)]).
    vm_compute. reflexivity. }
  assert (H2 : transcribe_threads
                 (after (before_engine ++ [EvWorker 0 (TrAnswer None)])) !! 0
               = Some (TrFinally "tmp0.wav" true)) by (vm_compute; reflexivity).
  exact (conj H1 (conj H2 (proj1 (cleanup_keeps_status _ 0 _ _ H1 H2)))).
Defined.

(** ** The keys *)

Lemma threads_run_keeps es a a' :
  handler a = Running -> threads_only es = true -> run es a = Some a' ->
  handler a' = Running /\ recording a' = recording a /\
  is_recording_with_key63 a' = is_recording_with_key63 a /\
  quit a' = quit a /\ (is_Some (model a) -> is_Some (model a')).
Proof.
  revert a. induction es as [|e es IH]; intros a Hh Ht Hr; simpl in *.
  - by simplify_eq.
  - apply andb_prop in Ht as [He%negb_false_eq Ht].
    destruct (step e a) as [b|] eqn:Hs; [|done].
    assert (Hb : handler b = Running /\ recording b = recording a /\
                 is_recording_with_key63 b = is_recording_with_key63 a /\
                 quit b = quit a /\ (is_Some (model a) -> is_Some (model b))).
    { destruct e; try discriminate He.
      - apply joined_step_keeps in Hs as [Hj _]. unfold joining in Hj.
        by rewrite Hh in Hj.
      - apply loader_step_keeps in Hs
          as (Hr' & Hk & Hh' & Hq & _ & _ & _ & _ & _ & _ & _ & _ & Hm & _).
        repeat split; try congruence.
        intros Hsome. destruct Hm as [->|[_ ->]]; eauto.
      - apply capture_step_keeps in Hs as (Hr' & Hk & Hm & Hh' & Hq & _).
        repeat split; congruence.
      - apply worker_step_keeps in Hs as (Hr' & Hk & Hm & Hh' & Hq & _).
        repeat split; congruence. }
    destruct Hb as (Hh1 & Hr1 & Hk1 & Hq1 & Hm1).
    destruct (IH b Hh1 Ht Hr) as (? & ? & ? & ? & ?).
    repeat split; try congruence. auto.
Qed.

(** The Globe key is a toggle.  With the toggle off, the model loaded and no
    recording on, one release starts a recording with an empty buffer;
    whatever the threads do after that, the next release stops that
    recording and switches the toggle off again, keeping the frames captured
    so far; and when the capture thread has ended, the stop starts exactly
    one transcription worker. *)
Theorem globe_key_toggles a :
  callback_ready a = true -> is_Some (model a) ->
  recording a = false -> is_recording_with_key63 a = false ->
  exists a1, step (EvRelease fn_key) a = Some a1 /\
    recording a1 = true /\ is_recording_with_key63 a1 = true /\
    frames a1 = [] /\
    forall es a2, threads_only es = true -> run es a1 = Some a2 ->
      exists a3, step (EvRelease fn_key) a2 = Some a3 /\
        recording a3 = false /\ is_recording_with_key63 a3 = false /\
        frames a3 = frames a2 /\
        handler a3 = Joining (KReleaseSpecial fn_key) /\
        forall a4, handler a4 = Joining (KReleaseSpecial fn_key) ->
          join_returns a4 = true ->
          exists a5, step EvJoined a4 = Some a5 /\
            handler a5 = Running /\
            recording a5 = recording a4 /\
            is_recording_with_key63 a5 = is_recording_with_key63 a4 /\
            transcribe_threads a5 = transcribe_threads a4 ++ [TrCheck].
Proof.
  intros Hready Hm Hr Hk.
  assert (Hm' : model a <> None) by (intros He; rewrite He in Hm; by destruct Hm).
  destruct (first_release_starts a Hready Hm' Hr Hk)
    as (a1 & Hs1 & _ & Hr1 & Hk1 & Hf1 & Hh1 & Hq1 & _).
  exists a1. repeat split; try done.
  intros es a2 Hes Hrun.
  destruct (threads_run_keeps es a1 a2 Hh1 Hes Hrun) as (Hh2 & Hr2 & Hk2 & Hq2 & _).
  assert (Hready2 : callback_ready a2 = true).
  { unfold callback_ready in *. rewrite Hh2, Hq2, Hq1.
    by destruct (handler a). }
  destruct (second_release_stops a2 Hready2) as (a3 & Hs3 & Hr3 & Hk3 & Hh3 & Hf3 & _);
    [congruence..|].
  exists a3. repeat split; try done.
  intros a4 Hh4 Hj4. simpl. rewrite Hh4, Hj4.
  eexists; split; [reflexivity|]. simpl.
  unfold on_release_special. simpl. done.
Qed.

Lemma globe_key_toggles_witness :
  callback_ready (after load_ok) = true /\
  is_Some (model (after load_ok)) /\
  recording (after load_ok) = false /\
  is_recording_with_key63 (after load_ok) = false /\
  exists a1, step (EvRelease fn_key) (after load_ok) = Some a1 /\
    recording a1 = true /\ is_recording_with_key63 a1 = true /\
    frames a1 = [] /\
    forall es a2, threads_only es = true -> run es a1 = Some a2 ->
      exists a3, step (EvRelease fn_key) a2 = Some a3 /\
        recording a3 = false /\ is_recording_with_key63 a3 = false /\
        frames a3 = frames a2 /\
        handler a3 = Joining (KReleaseSpecial fn_key) /\
        forall a4, handler a4 = Joining (KReleaseSpecial fn_key) ->
          join_returns a4 = true ->
          exists a5, step EvJoined a4 = Some a5 /\
            handler a5 = Running /\
            recording a5 = recording a4 /\
            is_recording_with_key63 a5 = is_recording_with_key63 a4 /\
            transcribe_threads a5 = transcribe_threads a4 ++ [TrCheck].
Proof.
  assert (H1 : callback_ready (after load_ok) = true) by (vm_compute; reflexivity).
  assert (H2 : is_Some (model (after load_ok)))
    by (vm_compute; eexists; reflexivity).
  assert (H3 : recording (after load_ok) = false) by (vm_compute; reflexivity).
  assert (H4 : is_recording_with_key63 (after load_ok) = false)
    by (vm_compute; reflexivity).
  exact (conj H1 (conj H2 (conj H3 (conj H4
    (globe_key_toggles (after load_ok) H1 H2 H3 H4))))).
Defined.

(** A recording started with the Globe key and stopped by the release of an
    alternative key (F12, F13, F17, F18, Command or Space) is stopped like
    any other, but the Globe key's toggle stays on: once the stop has
    returned, a release of the Globe key changes nothing. *)
Theorem alternative_stop_leaves_toggle_on a s :
  callback_ready a = true -> recording a = true ->
  is_recording_with_key63 a = true -> s ∈ special_keys ->
  exists a1, step (EvRelease (KeyOf s)) a = Some a1 /\
    recording a1 = false /\ is_recording_with_key63 a1 = true /\
    handler a1 = Joining KReturn /\
    forall a2, handler a2 = Joining KReturn ->
      recording a2 = false -> is_recording_with_key63 a2 = true ->
      quit a2 = false -> join_returns a2 = true ->
      exists a3, step EvJoined a2 = Some a3 /\
        transcribe_threads a3 = transcribe_threads a2 ++ [TrCheck] /\
        recording a3 = false /\ is_recording_with_key63 a3 = true /\
        step (EvRelease fn_key) a3 = Some a3.
Proof.
  intros Hready Hr Hk Hs. simpl. rewrite Hready.
  unfold on_release, on_release_special. simpl.
  rewrite bool_decide_eq_true_2, Hr by done. simpl.
  eexists; split; [reflexivity|]. simpl. repeat split; try done.
  intros a2 Hh2 Hr2 Hk2 Hq2 Hj2. rewrite Hh2, Hj2.
  eexists; split; [reflexivity|]. simpl. repeat split; try done.
  unfold callback_ready. simpl. rewrite Hq2. simpl.
  unfold on_release, on_release_special. simpl. by rewrite Hr2, Hk2.
Qed.

Lemma alternative_stop_leaves_toggle_on_witness :
  callback_ready (after recording_one_chunk) = true /\
  recording (after recording_one_chunk) = true /\
  is_recording_with_key63 (after recording_one_chunk) = true /\
  Key_space ∈ special_keys /\
  exists a1, step (EvRelease (KeyOf Key_space)) (after recording_one_chunk) = Some a1 /\
    recording a1 = false /\ is_recording_with_key63 a1 = true /\
    handler a1 = Joining KReturn /\
    forall a2, handler a2 = Joining KReturn ->
      recording a2 = false -> is_recording_with_key63 a2 = true ->
      quit a2 = false -> join_returns a2 = true ->
      exists a3, step EvJoined a2 = Some a3 /\
        transcribe_threads a3 = transcribe_threads a2 ++ [TrCheck] /\
        recording a3 = false /\ is_recording_with_key63 a3 = true /\
        step (EvRelease fn_key) a3 = Some a3.
Proof.
  assert (H1 : callback_ready (after recording_one_chunk) = true)
    by (vm_compute; reflexivity).
  assert (H2 : recording (after recording_one_chunk) = true)
    by (vm_compute; reflexivity).
  assert (H3 : is_recording_with_key63 (after recording_one_chunk) = true)
    by (vm_compute; reflexivity).
  assert (H4 : Key_space ∈ special_keys).
  { apply (bool_decide_eq_true_1 _). reflexivity. }
  exact (conj H1 (conj H2 (conj H3 (conj H4
    (alternative_stop_leaves_toggle_on _ Key_space H1 H2 H3 H4))))).
Defined.

(** Keys that are neither the Globe key nor an alternative key do nothing,
    pressed or released, and neither does a press of the Globe key: the
    whole object is as it was. *)
Theorem other_keys_ignored k a :
  callback_ready a = true ->
  step (EvPress fn_key) a = Some a /\
  (other_key k = true ->
   step (EvPress k) a = Some a /\ step (EvRelease k) a = Some a).
Proof.
  intros Hready. simpl. rewrite Hready. split; [done|].
  unfold other_key, on_press, on_release, on_release_special.
  intros [Hs Hvk]%andb_prop. apply negb_false_eq in Hs. rewrite Hs.
  destruct (vk_attr k) as [vk|]; simpl; [|done].
  apply andb_prop in Hvk as [[H63%negb_false_eq H49%negb_false_eq]%andb_prop
                             H55%negb_false_eq].
  rewrite H63, H49, H55. simpl. by destruct (recording a).
Qed.

Lemma other_keys_ignored_witness :
  callback_ready (after recording_one_chunk) = true /\
  other_key (KeyOf Key_shift) = true /\
  step (EvPress (KeyOf Key_shift)) (after recording_one_chunk)
    = Some (after recording_one_chunk) /\
  step (EvRelease (KeyOf Key_shift)) (after recording_one_chunk)
    = Some (after recording_one_chunk).
Proof.
  assert (H1 : callback_ready (after recording_one_chunk) = true)
    by (vm_compute; reflexivity).
  assert (H2 : other_key (KeyOf Key_shift) = true) by reflexivity.
  exact (conj H1 (conj H2
    (proj2 (other_keys_ignored (KeyOf Key_shift) _ H1) H2))).
Defined.

(** ** The frames *)

(** While the flag is up the capture loop appends every chunk it reads to
    the end of the buffer, in the order read: after reading the chunks [ds]
    the buffer is what it was, followed by [ds], and the loop is back at its
    test. *)
Theorem frames_in_capture_order ds a t :
  capture_threads a !! t = Some CapTest -> recording a = true ->
  exists a', run (reads t ds) a = Some a' /\
    frames a' = frames a ++ ds /\
    capture_threads a' !! t = Some CapTest /\ recording a' = true /\
    transcribe_threads a' = transcribe_threads a.
Proof.
  revert a. induction ds as [|d ds IH]; intros a Ht Hr.
  - exists a. by rewrite app_nil_r.
  - assert (Hlen : t < length (capture_threads a)) by (by eapply lookup_lt_Some).
    unfold reads. simpl. fold (reads t ds). rewrite Ht. simpl. rewrite Hr.
    rewrite list_lookup_insert_eq by done. simpl.
    rewrite list_lookup_insert_eq by (by rewrite length_insert). simpl.
    rewrite !list_insert_insert_eq.
    set (b := set_capture_threads _ _).
    destruct (IH b) as (a' & Hrun & Hf & Ht' & Hr' & Hw).
    { unfold b. simpl. by apply list_lookup_insert_eq. }
    { done. }
    exists a'. split; [done|]. rewrite Hf. unfold b. simpl.
    by rewrite <- app_assoc.
Qed.

Lemma frames_in_capture_order_witness :
  capture_threads (after recording_one_chunk) !! 0 = Some CapTest /\
  recording (after recording_one_chunk) = true /\
  exists a', run (reads 0 [chunk1; []; chunk1]) (after recording_one_chunk)
             = Some a' /\
    frames a' = frames (after recording_one_chunk) ++ [chunk1; []; chunk1] /\
    capture_threads a' !! 0 = Some CapTest /\ recording a' = true /\
    transcribe_threads a' = transcribe_threads (after recording_one_chunk).
Proof.
  assert (H1 : capture_threads (after recording_one_chunk) !! 0 = Some CapTest)
    by (vm_compute; reflexivity).
  assert (H2 : recording (after recording_one_chunk) = true)
    by (vm_compute; reflexivity).
  exact (conj H1 (conj H2
    (frames_in_capture_order [chunk1; []; chunk1] _ 0 H1 H2))).
Defined.

(** The alternative keys are push-to-talk.  With the model loaded and no
    recording on, pressing one of them starts a recording with an empty
    buffer and leaves the Globe key's toggle as it is; whatever the threads
    do while the key is held, releasing it stops the recording, keeping the
    frames captured so far. *)
Theorem alternative_key_push_to_talk a s :
  callback_ready a = true -> is_Some (model a) -> recording a = false ->
  s ∈ special_keys ->
  exists a1, step (EvPress (KeyOf s)) a = Some a1 /\
    recording a1 = true /\ frames a1 = [] /\
    is_recording_with_key63 a1 = is_recording_with_key63 a /\
    recording_thread a1 = Some (length (capture_threads a)) /\
    capture_threads a1 = capture_threads a ++ [CapOpen] /\
    forall es a2, threads_only es = true -> run es a1 = Some a2 ->
      exists a3, step (EvRelease (KeyOf s)) a2 = Some a3 /\
        recording a3 = false /\ handler a3 = Joining KReturn /\
        frames a3 = frames a2 /\
        is_recording_with_key63 a3 = is_recording_with_key63 a.
Proof.
  intros Hready [m Hm] Hr Hs. simpl. rewrite Hready.
  unfold on_press, start_recording. simpl.
  rewrite bool_decide_eq_true_2, Hr, Hm by done. simpl.
  eexists; split; [reflexivity|]. simpl. repeat split; try done.
  intros es a2 Hes Hrun.
  assert (Hh : handler a = Running /\ quit a = false).
  { unfold callback_ready in Hready.
    destruct (handler a); [|done]. by destruct (quit a). }
  destruct Hh as [Hh Hq].
  apply threads_run_keeps in Hrun as (Hh2 & Hr2 & Hk2 & Hq2 & _);
    [|done..].
  simpl in *.
  unfold callback_ready. rewrite Hh2, Hq2, Hq. simpl.
  unfold on_release, on_release_special. simpl.
  rewrite bool_decide_eq_true_2, Hr2 by done. simpl.
  eexists; split; [reflexivity|]. simpl. done.
Qed.

Lemma alternative_key_push_to_talk_witness :
  callback_ready (after load_ok) = true /\
  is_Some (model (after load_ok)) /\
  recording (after load_ok) = false /\
  Key_f12 ∈ special_keys /\
  exists a1, step (EvPress (KeyOf Key_f12)) (after load_ok) = Some a1 /\
    recording a1 = true /\ frames a1 = [] /\
    is_recording_with_key63 a1 = is_recording_with_key63 (after load_ok) /\
    recording_thread a1 = Some (length (capture_threads (after load_ok))) /\
    capture_threads a1 = capture_threads (after load_ok) ++ [CapOpen] /\
    forall es a2, threads_only es = true -> run es a1 = Some a2 ->
      exists a3, step (EvRelease (KeyOf Key_f12)) a2 = Some a3 /\
        recording a3 = false /\ handler a3 = Joining KReturn /\
        frames a3 = frames a2 /\
        is_recording_with_key63 a3 = is_recording_with_key63 (after load_ok).
Proof.
  assert (H1 : callback_ready (after load_ok) = true) by (vm_compute; reflexivity).
  assert (H2 : is_Some (model (after load_ok)))
    by (vm_compute; eexists; reflexivity).
  assert (H3 : recording (after load_ok) = false) by (vm_compute; reflexivity).
  assert (H4 : Key_f12 ∈ special_keys).
  { apply (bool_decide_eq_true_1 _). reflexivity. }
  exact (conj H1 (conj H2 (conj H3 (conj H4
    (alternative_key_push_to_talk _ Key_f12 H1 H2 H3 H4))))).
Defined.

(** ** The two callback threads *)



(** A signal that finds the flag down stops nothing and waits for nothing:
    [handle_shutdown] releases the audio device and quits at once, whatever
    the capture threads are doing and whether or not the listener still
    waits in the join of a [stop_recording]. *)
Theorem shutdown_with_flag_down s :
  creachable s ->
  recording (shared s) = false -> quit (shared s) = false ->
  exists s', cstep (CCall EvSignal) s = Some s' /\
    audio_terminated (shared s') = true /\ quit (shared s') = true /\
    capture_threads (shared s') = capture_threads (shared s) /\
    transcribe_threads (shared s') = transcribe_threads (shared s) /\
    listener_waits s' = listener_waits s /\ main_waits s' = main_waits s.
Proof.
  intros [Hh _]%creachable_inv Hr Hq. simpl.
  unfold callback_ready, handle_shutdown. rewrite Hh, Hq, Hr. simpl.
  eexists. split; [reflexivity|]. simpl. by rewrite Hh.
Qed.

Lemma shutdown_with_flag_down_witness :
  creachable (cafter stop_waits_for_read) /\
  recording (shared (cafter stop_waits_for_read)) = false /\
  quit (shared (cafter stop_waits_for_read)) = false /\
  capture_threads (shared (cafter stop_waits_for_read)) = [CapRead] /\
  joined_of Listener (cafter stop_waits_for_read) = Some 0 /\
  exists s', cstep (CCall EvSignal) (cafter stop_waits_for_read) = Some s' /\
    audio_terminated (shared s') = true /\ quit (shared s') = true /\
    capture_threads (shared s')
    = capture_threads (shared (cafter stop_waits_for_read)) /\
    transcribe_threads (shared s')
    = transcribe_threads (shared (cafter stop_waits_for_read)) /\
    listener_waits s' = listener_waits (cafter stop_waits_for_read) /\
    main_waits s' = main_waits (cafter stop_waits_for_read).
Proof.
  assert (H1 : creachable (cafter stop_waits_for_read)).
  { exists stop_waits_for_read. vm_compute. reflexivity. }
  assert (H2 : recording (shared (cafter stop_waits_for_read)) = false)
    by (vm_compute; reflexivity).
  assert (H3 : quit (shared (cafter stop_waits_for_read)) = false)
    by (vm_compute; reflexivity).
  assert (H4 : capture_threads (shared (cafter stop_waits_for_read)) = [CapRead])
    by (vm_compute; reflexivity).
  assert (H5 : joined_of Listener (cafter stop_waits_for_read) = Some 0)
    by (vm_compute; reflexivity).
  exact (conj H1 (conj H2 (conj H3 (conj H4 (conj H5
    (shutdown_with_flag_down _ H1 H2 H3)))))).
Defined.
